(** * TNEA cutoff analyzer: normalisation, filtering, sorting and exit codes

    A shallow embedding of [main.py].  A pandas [DataFrame] is a header of
    column labels together with its rows; every pipeline stage builds a new
    frame.  Python exceptions are explicit ([result]); what the script prints
    and writes is an explicit list of events.

    Scope of the model.
    - A cell is a string, a number or a null.  Numbers are rationals: float
      rounding, infinities and the int64/float64 distinction are not
      represented, and a bound given on the command line is a rational.
    - Case mapping ([str.lower], [str.upper]) is the ASCII one.
    - A row of a frame is a record named by the column labels; column
      access [df[name]] models a frame whose labels are distinct.
    - Four pieces of library behaviour are taken as an interface ([Pandas]):
      the numeric parser behind [pd.to_numeric], the rendering used by
      [astype(str)] for cells that are not strings, the regular-expression
      search behind [Series.str.contains], and the sorting algorithm behind
      [sort_values] (pandas' default [kind='quicksort']). *)

From Stdlib Require Import List String Ascii Bool Arith ZArith QArith Lia.
From Stdlib Require Import Permutation Sorted OrderedTypeEx.
Import ListNotations.
Open Scope string_scope.
Open Scope list_scope.
Open Scope nat_scope.

Set Implicit Arguments.

(** ** Exceptions *)

Inductive exn : Type :=
| KeyError | TypeError | AttributeError | ValueError | ReError.

Inductive result (A : Type) : Type :=
| Ok (a : A)
| Raise (e : exn).

Arguments Ok {A} a.
Arguments Raise {A} e.

Definition bind {A B : Type} (m : result A) (k : A -> result B) : result B :=
  match m with
  | Ok a => k a
  | Raise e => Raise e
  end.

Notation "x <- m ;; k" := (bind m (fun x => k))
  (at level 61, m at next level, right associativity).

Fixpoint mapM {A B : Type} (f : A -> result B) (l : list A) : result (list B) :=
  match l with
  | [] => Ok []
  | a :: t => b <- f a ;; bs <- mapM f t ;; Ok (b :: bs)
  end.

Fixpoint foldM {A B : Type} (f : A -> B -> result A) (l : list B) (a : A)
  : result A :=
  match l with
  | [] => Ok a
  | b :: t => a' <- f a b ;; foldM f t a'
  end.

(** ** Cells and frames *)

Inductive cell : Type :=
| Str (s : string)
| Num (q : Q)
| Null.

Definition isna (c : cell) : bool :=
  match c with Null => true | _ => false end.

Definition notna (c : cell) : bool := negb (isna c).

(** A record: named fields in order.  A raw record is one JSON object; a
    row of a frame is a record whose names are the frame's column labels. *)
Definition record : Type := list (string * cell).

Fixpoint lookup {V : Type} (k : string) (r : list (string * V)) : option V :=
  match r with
  | [] => None
  | (k', v) :: t => if String.eqb k' k then Some v else lookup k t
  end.

(** The value of a field, a null when the record lacks it. *)
Definition field (k : string) (r : record) : cell :=
  match lookup k r with
  | Some v => v
  | None => Null
  end.

Record DataFrame : Type := mkFrame {
  columns : list string;
  rows : list record
}.

(** [pd.DataFrame()] *)
Definition empty_frame : DataFrame := mkFrame [] [].

(** [df.empty]: some axis has length zero. *)
Definition empty (df : DataFrame) : bool :=
  match rows df, columns df with
  | [], _ => true
  | _, [] => true
  | _, _ => false
  end.

(** [name in df.columns] *)
Definition has_column (df : DataFrame) (name : string) : bool :=
  existsb (String.eqb name) (columns df).

(** [df[name]] *)
Definition getitem (df : DataFrame) (name : string) : result (list cell) :=
  if has_column df name then Ok (map (field name) (rows df))
  else Raise KeyError.

(** [df[mask]] for a boolean mask aligned with the rows. *)
Definition boolean_index (df : DataFrame) (mask : list bool) : DataFrame :=
  mkFrame (columns df) (map fst (filter snd (combine (rows df) mask))).

(** [df.take(indexer)] *)
Definition take (df : DataFrame) (indexer : list nat) : DataFrame :=
  mkFrame (columns df) (map (fun i => nth i (rows df) []) indexer).

(** ** Python strings *)

Definition lower_ascii (a : ascii) : ascii :=
  let n := nat_of_ascii a in
  if (65 <=? n) && (n <=? 90) then ascii_of_nat (n + 32) else a.

Definition upper_ascii (a : ascii) : ascii :=
  let n := nat_of_ascii a in
  if (97 <=? n) && (n <=? 122) then ascii_of_nat (n - 32) else a.

Fixpoint map_string (f : ascii -> ascii) (s : string) : string :=
  match s with
  | EmptyString => EmptyString
  | String a t => String (f a) (map_string f t)
  end.

Definition lower : string -> string := map_string lower_ascii.
Definition upper : string -> string := map_string upper_ascii.

(** [needle in hay] *)
Fixpoint contains (needle hay : string) : bool :=
  String.prefix needle hay ||
  match hay with
  | EmptyString => false
  | String _ t => contains needle t
  end.

(** ** Configuration *)

Definition COLUMN_MAPPING : list (string * string) :=
  [ ("coc", "College Code");
    ("con", "College Name");
    ("brc", "Branch Code");
    ("brn", "Branch Name");
    ("OC", "OC Cutoff");
    ("BC", "BC Cutoff");
    ("BCM", "BCM Cutoff");
    ("MBC", "MBC Cutoff");
    ("SC", "SC Cutoff");
    ("SCA", "SCA Cutoff");
    ("ST", "ST Cutoff");
    ("octl", "OC Total Seats");
    ("ocal", "OC Allotted Seats");
    ("bctl", "BC Total Seats");
    ("bcal", "BC Allotted Seats");
    ("bcmtl", "BCM Total Seats");
    ("bcmal", "BCM Allotted Seats");
    ("mbctl", "MBC Total Seats");
    ("mbcal", "MBC Allotted Seats");
    ("sctl", "SC Total Seats");
    ("scal", "SC Allotted Seats");
    ("scatl", "SCA Total Seats");
    ("scaal", "SCA Allotted Seats");
    ("sttl", "ST Total Seats");
    ("stal", "ST Allotted Seats") ].

(** [COLUMN_MAPPING.keys()] and [COLUMN_MAPPING.values()] *)
Definition mapping_keys : list string := map fst COLUMN_MAPPING.
Definition mapping_values : list string := map snd COLUMN_MAPPING.

Definition CUTOFF_COLUMNS : list string :=
  [ "OC Cutoff"; "BC Cutoff"; "BCM Cutoff"; "MBC Cutoff";
    "SC Cutoff"; "SCA Cutoff"; "ST Cutoff" ].

Definition mem (s : string) (l : list string) : bool :=
  existsb (String.eqb s) l.

Definition YEAR_TO_API_CODE : list (Z * string) :=
  [ (2024%Z, "1C"); (2023%Z, "2C"); (2022%Z, "3C");
    (2021%Z, "4C"); (2020%Z, "5C") ].

(** ** Command-line arguments *)

Inductive community : Type := OC | BC | BCM | MBC | SC | SCA | ST.

(** The pairs iterated by the cutoff loop of [apply_filters]. *)
Definition communities : list community := [OC; BC; BCM; MBC; SC; SCA; ST].

Definition cutoff_col_name (c : community) : string :=
  match c with
  | OC => "OC Cutoff" | BC => "BC Cutoff" | BCM => "BCM Cutoff"
  | MBC => "MBC Cutoff" | SC => "SC Cutoff" | SCA => "SCA Cutoff"
  | ST => "ST Cutoff"
  end.

Inductive export_format : Type := excel | pdf | csv.
Inductive sort_direction : Type := asc | desc.

(** The [argparse.Namespace].  [min_cutoff c] stands for the attribute
    [min_<c>_cutoff], [max_cutoff c] for [max_<c>_cutoff]. *)
Record Namespace : Type := mkArgs {
  year : Z;
  output_file : option string;
  format : export_format;
  list_colleges : bool;
  list_branches : bool;
  list_sortable_columns : bool;
  filter_college_code : option string;
  filter_college_name : option string;
  filter_branch_code : option string;
  filter_branch_name : option string;
  min_cutoff : community -> option Q;
  max_cutoff : community -> option Q;
  sort_by : option string;
  sort_order : sort_direction
}.

(** Truth value of an optional string: [None] and [''] are false. *)
Definition truthy (o : option string) : bool :=
  match o with
  | Some (String _ _) => true
  | _ => false
  end.

(** ** The library interface *)

Class Pandas : Type := {
  (** the parser of [pd.to_numeric] on one string; [None] when the string is
      not numeric *)
  parse_numeric : string -> option Q;
  (** [str(v)] for a cell that is not a string *)
  str_of_value : cell -> string;
  (** [re.compile(pat, re.IGNORECASE)] as its search predicate; [None] when
      the pattern is malformed *)
  re_compile : string -> option (string -> bool);
  (** [numpy.argsort(kind='quicksort')] on keys that are not null: the
      positions of the keys in ascending key order *)
  argsort : list cell -> result (list nat)
}.

Definition is_num (c : cell) : bool :=
  match c with Num _ => true | _ => false end.

Definition is_str (c : cell) : bool :=
  match c with Str _ => true | _ => false end.

(** The [.str] accessor is refused on a column of numeric dtype: some cell
    is not null and every such cell is a number. *)
Definition str_accessor (col : list cell) : result (list cell) :=
  if existsb notna col && forallb (fun c => isna c || is_num c) col
  then Raise AttributeError
  else Ok col.

(** [col >= x] and [col <= x] on a column; a null compares false, a string
    cannot be compared with a number. *)
Definition ge_scalar (col : list cell) (x : Q) : result (list bool) :=
  mapM (fun c => match c with
                 | Num q => Ok (Qle_bool x q)
                 | Null => Ok false
                 | Str _ => Raise TypeError
                 end) col.

Definition le_scalar (col : list cell) (x : Q) : result (list bool) :=
  mapM (fun c => match c with
                 | Num q => Ok (Qle_bool q x)
                 | Null => Ok false
                 | Str _ => Raise TypeError
                 end) col.

Section Filters.

Context {P : Pandas}.

(** [col.astype(str)] on one cell *)
Definition astype_str (c : cell) : string :=
  match c with
  | Str s => s
  | _ => str_of_value c
  end.

(** [col.str.contains(pat, case=False, na=False)] *)
Definition str_contains (col : list cell) (pat : string)
  : result (list bool) :=
  col <- str_accessor col ;;
  match re_compile pat with
  | None => Raise ReError
  | Some search =>
      Ok (map (fun c => match c with Str s => search s | _ => false end) col)
  end.

(** [col.str.upper()] *)
Definition str_upper (col : list cell) : result (list cell) :=
  col <- str_accessor col ;;
  Ok (map (fun c => match c with Str s => Str (upper s) | _ => Null end) col).

(** [col == s] for a string [s] *)
Definition eq_scalar (col : list cell) (s : string) : list bool :=
  map (fun c => match c with Str u => String.eqb u s | _ => false end) col.

Definition filter_code (code : string) (df : DataFrame) : result DataFrame :=
  col <- getitem df "College Code" ;;
  Ok (boolean_index df (map (fun c => String.eqb (astype_str c) code) col)).

Definition filter_name (label pat : string) (df : DataFrame)
  : result DataFrame :=
  col <- getitem df label ;;
  mask <- str_contains col pat ;;
  Ok (boolean_index df mask).

Definition filter_branch_code_eq (code : string) (df : DataFrame)
  : result DataFrame :=
  col <- getitem df "Branch Code" ;;
  up <- str_upper col ;;
  Ok (boolean_index df (eq_scalar up (upper code))).

(** [if arg: df = ...] for a string argument *)
Definition if_set (arg : option string)
    (f : string -> DataFrame -> result DataFrame) (df : DataFrame)
  : result DataFrame :=
  if truthy arg
  then match arg with Some s => f s df | None => Ok df end
  else Ok df.

(** One round of the loop over the community categories. *)
Definition cutoff_round (args : Namespace) (df : DataFrame) (c : community)
  : result DataFrame :=
  df <- match min_cutoff args c with
        | Some lo =>
            col <- getitem df (cutoff_col_name c) ;;
            mask <- ge_scalar col lo ;;
            Ok (boolean_index df mask)
        | None => Ok df
        end ;;
  match max_cutoff args c with
  | Some hi =>
      col <- getitem df (cutoff_col_name c) ;;
      mask <- le_scalar col hi ;;
      Ok (boolean_index df mask)
  | None => Ok df
  end.

Definition apply_filters (df : DataFrame) (args : Namespace)
  : result DataFrame :=
  if empty df then Ok df
  else
    df <- if_set (filter_college_code args) filter_code df ;;
    df <- if_set (filter_college_name args) (filter_name "College Name") df ;;
    df <- if_set (filter_branch_code args) filter_branch_code_eq df ;;
    df <- if_set (filter_branch_name args) (filter_name "Branch Name") df ;;
    foldM (cutoff_round args) communities df.

End Filters.

(** ** Normalisation *)

(** Labels in order of first appearance. *)
Fixpoint first_seen (seen l : list string) : list string :=
  match l with
  | [] => []
  | x :: t =>
      if mem x seen then first_seen seen t
      else x :: first_seen (x :: seen) t
  end.

(** [pd.DataFrame(raw_data)]: one column per field name met, a null where a
    record lacks the field. *)
Definition all_keys (raw : list record) : list string :=
  first_seen [] (flat_map (map fst) raw).

Definition frame_of_records (raw : list record) : DataFrame :=
  let keys := all_keys raw in
  mkFrame keys (map (fun r => map (fun k => (k, field k r)) keys) raw).

(** The fields of a row whose label is [l], in column order. *)
Definition fields_of (r : record) (l : string) : record :=
  filter (fun p => String.eqb (fst p) l) r.

(** [df[labels]]: for each label in turn, every column carrying it. *)
Definition select (labels : list string) (df : DataFrame) : DataFrame :=
  mkFrame
    (flat_map (fun l => filter (String.eqb l) (columns df)) labels)
    (map (fun r => flat_map (fields_of r) labels) (rows df)).

(** [df.drop(columns=[name])] *)
Definition drop_column (name : string) (df : DataFrame) : DataFrame :=
  mkFrame (filter (fun l => negb (String.eqb l name)) (columns df))
    (map (filter (fun p => negb (String.eqb (fst p) name))) (rows df)).

Definition rename_label (l : string) : string :=
  match lookup l COLUMN_MAPPING with
  | Some v => v
  | None => l
  end.

(** [df.rename(columns=COLUMN_MAPPING)] *)
Definition rename (df : DataFrame) : DataFrame :=
  mkFrame (map rename_label (columns df))
    (map (map (fun p => (rename_label (fst p), snd p))) (rows df)).

(** [if name not in df.columns: df[name] = pd.NA] *)
Definition ensure_column (df : DataFrame) (name : string) : DataFrame :=
  if has_column df name then df
  else mkFrame (columns df ++ [name])
         (map (fun r => r ++ [(name, Null)]) (rows df)).

(** [df[name] = f(df[name])] for a cell-wise [f] that may raise.  When the
    label is carried by several columns [df[name]] is a frame, which
    [pd.to_numeric] refuses. *)
Definition assign_column (f : cell -> result cell) (df : DataFrame)
    (name : string) : result DataFrame :=
  if has_column df name then
    if 1 <? count_occ string_dec (columns df) name then Raise TypeError
    else
      rs <- mapM (mapM (fun p => if String.eqb (fst p) name
                                 then c <- f (snd p) ;; Ok (fst p, c)
                                 else Ok p))
                 (rows df) ;;
      Ok (mkFrame (columns df) rs)
  else Ok df.

Definition is_integral (q : Q) : bool :=
  Z.eqb (Z.modulo (Qnum q) (Zpos (Qden q))) 0.

(** [astype('Int64')] on one cell of a numeric column: a number that is
    not an integer cannot be cast.  (A string is never met there: the column
    comes out of [pd.to_numeric].) *)
Definition astype_Int64 (c : cell) : result cell :=
  match c with
  | Num q => if is_integral q then Ok (Num q) else Raise TypeError
  | Null => Ok Null
  | Str _ => Raise ValueError
  end.

Definition seat_cols : list string :=
  filter (fun col => contains "Seats" col && negb (mem col CUTOFF_COLUMNS))
         mapping_values.

(** The first steps of [process_data]: build the frame, drop ["_id"],
    rename the columns, add the missing ones. *)
Definition prepared (raw_data : list record) : DataFrame :=
  let df := frame_of_records raw_data in
  let df := if has_column df "_id" then drop_column "_id" df else df in
  let df := rename df in
  fold_left ensure_column mapping_values df.

(** The last step of [process_data]: the mapped columns in the order of
    [COLUMN_MAPPING], then any other column. *)
Definition reordered (df : DataFrame) : DataFrame :=
  let ordered_columns := filter (has_column df) mapping_values in
  let extra_columns :=
    filter (fun col => negb (mem col ordered_columns)) (columns df) in
  select (ordered_columns ++ extra_columns) df.

Section Normalizer.

Context {P : Pandas}.

(** [pd.to_numeric(..., errors='coerce')] on one cell *)
Definition to_numeric (c : cell) : cell :=
  match c with
  | Str s => match parse_numeric s with
             | Some q => Num q
             | None => Null
             end
  | Num q => Num q
  | Null => Null
  end.

Definition process_data (raw_data : list record) : result DataFrame :=
  match raw_data with
  | [] => Ok empty_frame
  | _ =>
      let df := prepared raw_data in
      df <- foldM (assign_column (fun c => Ok (to_numeric c)))
                  CUTOFF_COLUMNS df ;;
      df <- foldM (assign_column (fun c => astype_Int64 (to_numeric c)))
                  seat_cols df ;;
      Ok (reordered df)
  end.

End Normalizer.

(** ** What the script prints and writes *)

Inductive message : Type :=
| PdfImportWarning
| SortColumnNotFound (sort_by : string) (available : list string)
| SortFailed (column : string) (e : exn)
| SavedTo (filename : string)
| SaveFailed (fmt : export_format) (filename : string)
| PdfUnavailable
| PdfSkipped
| PdfAdvice
| UsageError
| SortableColumns (entries : list (string * string))
| InvalidYear (y : Z)
| FetchingFrom (code : string)
| FetchError (code : string)
| FetchFailed (y : Z)
| NoDataFound (y : Z)
| NoDataToProcess
| NoMatch
| ListingUnavailable (display column : string)
| Listing (display : string) (items : list record)
| Traceback (e : exn).

Inductive event : Type :=
| Print (m : message)
| PrintErr (m : message)
| FileWritten (fmt : export_format) (filename : string) (df : DataFrame).

(** ** Sorting *)

(** Resolution of [--sort-by] to a column label. *)
Definition partial_match (sort_by : string) (kv : string * string) : bool :=
  contains (lower sort_by) (lower (snd kv))
  || contains (lower sort_by) (lower (fst kv)).

Definition resolve_sort_column (sort_by : string) : option string :=
  if mem sort_by mapping_values then Some sort_by
  else
    match find (partial_match sort_by) COLUMN_MAPPING with
    | Some kv => Some (snd kv)
    | None =>
        if mem sort_by mapping_keys then lookup sort_by COLUMN_MAPPING
        else None
    end.

Section Sorting.

Context {P : Pandas}.

(** pandas' [nargsort]: the nulls are set aside, the other keys are ordered
    by [argsort] (on the reversed column for a descending sort, the outcome
    being reversed again), and the nulls are put back at one end. *)
Definition nargsort (items : list cell) (ascending na_last : bool)
  : result (list nat) :=
  let idx := seq 0 (List.length items) in
  let non_nan_idx := filter (fun i => notna (nth i items Null)) idx in
  let nan_idx := filter (fun i => isna (nth i items Null)) idx in
  let non_nans := filter notna items in
  let non_nans := if ascending then non_nans else rev non_nans in
  let non_nan_idx := if ascending then non_nan_idx else rev non_nan_idx in
  order <- argsort non_nans ;;
  let indexer := map (fun j => nth j non_nan_idx 0) order in
  let indexer := if ascending then indexer else rev indexer in
  Ok (if na_last then indexer ++ nan_idx else nan_idx ++ indexer).

(** [df.sort_values(by=..., ascending=..., na_position=...)] *)
Definition sort_values (df : DataFrame) (by_ : string)
    (ascending na_last : bool) : result DataFrame :=
  if 1 <? count_occ string_dec (columns df) by_ then Raise ValueError
  else
    k <- getitem df by_ ;;
    indexer <- nargsort k ascending na_last ;;
    Ok (take df indexer).

Definition apply_sorting (df : DataFrame) (args : Namespace)
  : DataFrame * list event :=
  if empty df || negb (truthy (sort_by args)) then (df, [])
  else
    let sort_by_ := match sort_by args with Some s => s | None => "" end in
    let not_found :=
      (df, [PrintErr (SortColumnNotFound sort_by_ (columns df))]) in
    match resolve_sort_column sort_by_ with
    | None => not_found
    | Some sort_column_actual_name =>
        if negb (has_column df sort_column_actual_name) then not_found
        else
          let ascending_order :=
            match sort_order args with asc => true | desc => false end in
          let na_last :=
            if mem sort_column_actual_name CUTOFF_COLUMNS
            then ascending_order
            else true in
          match sort_values df sort_column_actual_name ascending_order
                            na_last with
          | Ok sorted => (sorted, [])
          | Raise e =>
              (df, [PrintErr (SortFailed sort_column_actual_name e)])
          end
    end.

End Sorting.

(** ** Listing *)

Definition cell_eqb (a b : cell) : bool :=
  match a, b with
  | Str s, Str t => String.eqb s t
  | Num p, Num q => Qeq_bool p q
  | Null, Null => true
  | _, _ => false
  end.

Fixpoint row_eqb (r1 r2 : record) : bool :=
  match r1, r2 with
  | [], [] => true
  | a :: t1, b :: t2 => cell_eqb (snd a) (snd b) && row_eqb t1 t2
  | _, _ => false
  end.

Fixpoint distinct_rows (seen rs : list record) : list record :=
  match rs with
  | [] => []
  | r :: t =>
      if existsb (row_eqb r) seen then distinct_rows seen t
      else r :: distinct_rows (r :: seen) t
  end.

(** [df.drop_duplicates()] *)
Definition drop_duplicates (df : DataFrame) : DataFrame :=
  mkFrame (columns df) (distinct_rows [] (rows df)).

(** [df[[a, b]]] *)
Definition getitems (labels : list string) (df : DataFrame)
  : result DataFrame :=
  if forallb (has_column df) labels then Ok (select labels df)
  else Raise KeyError.

Section Listing.

Context {P : Pandas}.

Definition unique_pairs (df : DataFrame) (code_column column_name : string)
  : result DataFrame :=
  sub <- getitems [code_column; column_name] df ;;
  sort_values (drop_duplicates sub) column_name true true.

Definition list_unique_values (df : DataFrame)
    (column_name display_name : string) : result (list event) :=
  if empty df || negb (has_column df column_name)
  then Ok [Print (ListingUnavailable display_name column_name)]
  else
    unique_items <- unique_pairs df "College Code" column_name ;;
    items <-
      (if String.eqb column_name "College Name" then Ok (rows unique_items)
       else if String.eqb column_name "Branch Name" then
         unique_branches <- unique_pairs df "Branch Code" column_name ;;
         Ok (rows unique_branches)
       else
         col <- getitem df column_name ;;
         Ok (distinct_rows [] (map (fun c => [(column_name, c)]) col))) ;;
    Ok [Print (Listing display_name items)].

End Listing.

(** ** The environment of one run *)

Inductive response : Type :=
| Json (data : list record)
| HttpError (status : Z)
| ConnectionFailed
| TimedOut
| RequestFailed
| MalformedJson.

Record Env : Type := mkEnv {
  (** whether [xhtml2pdf] could be imported *)
  pisa : bool;
  (** what the GET of [BASE_URL + code] gives *)
  http_get : string -> response;
  (** whether the [try] block of an exporter runs to its end *)
  export_ok : export_format -> DataFrame -> string -> bool
}.

(** The module-level [try: from xhtml2pdf import pisa]. *)
Definition import_pisa (env : Env) : list event :=
  if pisa env then [] else [PrintErr PdfImportWarning].

Definition fetch_tnea_data (env : Env) (year_api_code : string)
  : option (list record) * list event :=
  match http_get env year_api_code with
  | Json data => (Some data, [Print (FetchingFrom year_api_code)])
  | _ => (None, [Print (FetchingFrom year_api_code);
                 PrintErr (FetchError year_api_code)])
  end.

(** ** Exporters *)

Definition export (env : Env) (fmt : export_format) (df : DataFrame)
    (filename : string) : list event :=
  if export_ok env fmt df filename
  then [FileWritten fmt filename df; Print (SavedTo filename)]
  else [PrintErr (SaveFailed fmt filename)].

Definition save_to_excel (env : Env) := export env excel.
Definition save_to_csv (env : Env) := export env csv.

Definition save_to_pdf (env : Env) (df : DataFrame) (filename : string)
  : list event :=
  if pisa env then export env pdf df filename
  else [PrintErr PdfUnavailable].

(** ** The command line *)

(** What [parser.parse_args()] checks of the values given: [--year] must be
    one of the [choices]. *)
Definition parse_args (argv : Namespace) : option Namespace :=
  if existsb (Z.eqb (year argv)) (map fst YEAR_TO_API_CODE)
  then Some argv
  else None.

Fixpoint year_code (y : Z) (table : list (Z * string)) : option string :=
  match table with
  | [] => None
  | (k, v) :: t => if Z.eqb k y then Some v else year_code y t
  end.

(** The last block of [main]: [if args.output_file: ...]. *)
Definition save_output (env : Env) (args : Namespace) (df_sorted : DataFrame)
  : list event :=
  match output_file args with
  | Some (String a f) =>
      let output := String a f in
      match format args with
      | excel => save_to_excel env df_sorted output
      | csv => save_to_csv env df_sorted output
      | pdf =>
          if pisa env
          then save_to_pdf env df_sorted output
          else [PrintErr PdfSkipped; PrintErr PdfAdvice]
      end
  | _ => []
  end.

Section Main.

Context {P : Pandas}.

(** An exception that nothing catches ends the process with status 1. *)
Definition uncaught (e : exn) : Z * list event :=
  (1%Z, [PrintErr (Traceback e)]).

(** The body of [main] after [parse_args]: the exit status of the process
    and what it printed and wrote.  Status 2 is an [argparse] error,
    status 1 an explicit [sys.exit(1)] or an uncaught exception. *)
Definition run (env : Env) (args : Namespace) : Z * list event :=
  if list_sortable_columns args
  then (0%Z, [Print (SortableColumns COLUMN_MAPPING)])
  else
    let is_list_action := list_colleges args || list_branches args in
    if negb is_list_action && negb (truthy (output_file args))
    then (2%Z, [PrintErr UsageError])
    else
      match year_code (year args) YEAR_TO_API_CODE with
      | None => (1%Z, [PrintErr (InvalidYear (year args))])
      | Some year_api_code =>
          let (raw_data, fetched) := fetch_tnea_data env year_api_code in
          match raw_data with
          | None => (1%Z, fetched ++ [PrintErr (FetchFailed (year args))])
          | Some [] => (0%Z, fetched ++ [PrintErr (NoDataFound (year args))])
          | Some raw_data =>
              match process_data raw_data with
              | Raise e => (1%Z, fetched ++ snd (uncaught e))
              | Ok df =>
                  if empty df
                  then (0%Z, fetched ++ [PrintErr NoDataToProcess])
                  else if list_colleges args then
                    match list_unique_values df "College Name" "Colleges" with
                    | Ok out => (0%Z, fetched ++ out)
                    | Raise e => (1%Z, fetched ++ snd (uncaught e))
                    end
                  else if list_branches args then
                    match list_unique_values df "Branch Name" "Branches" with
                    | Ok out => (0%Z, fetched ++ out)
                    | Raise e => (1%Z, fetched ++ snd (uncaught e))
                    end
                  else
                    match apply_filters df args with
                    | Raise e => (1%Z, fetched ++ snd (uncaught e))
                    | Ok df_filtered =>
                        if empty df_filtered
                        then (0%Z, fetched ++ [PrintErr NoMatch])
                        else
                          let (df_sorted, warned) :=
                            apply_sorting df_filtered args in
                          let saved := save_output env args df_sorted in
                          (0%Z, fetched ++ warned ++ saved)
                    end
              end
          end
      end.

(** The whole script: the import of the renderer, then [main]. *)
Definition main (env : Env) (argv : Namespace) : Z * list event :=
  let (status, out) :=
    match parse_args argv with
    | None => (2%Z, [PrintErr UsageError])
    | Some args => run env args
    end in
  (status, import_pisa env ++ out).

End Main.

(** ** Tables, orders and the sorting contract *)

Inductive subseq {A : Type} : list A -> list A -> Prop :=
| subseq_nil : subseq [] []
| subseq_skip : forall x l1 l2, subseq l1 l2 -> subseq l1 (x :: l2)
| subseq_keep : forall x l1 l2, subseq l1 l2 -> subseq (x :: l1) (x :: l2).

Definition num_or_null (c : cell) : bool := negb (is_str c).
Definition str_or_null (c : cell) : bool := negb (is_num c).
Definition int_or_null (c : cell) : bool :=
  match c with
  | Num q => is_integral q
  | Null => true
  | Str _ => false
  end.

(** What the data model asks of the cells of a canonical column. *)
Definition column_kind (name : string) : cell -> bool :=
  if mem name CUTOFF_COLUMNS then num_or_null
  else if mem name seat_cols then int_or_null
  else str_or_null.

Fixpoint distinct (l : list string) : bool :=
  match l with
  | [] => true
  | x :: t => negb (mem x t) && distinct t
  end.

Fixpoint labels_eqb (l1 l2 : list string) : bool :=
  match l1, l2 with
  | [], [] => true
  | a :: t1, b :: t2 => String.eqb a b && labels_eqb t1 t2
  | _, _ => false
  end.

(** A table of canonical records: distinct labels, rows as wide as the
    header, every canonical column present with cells of its kind. *)
Definition canonical (df : DataFrame) : bool :=
  distinct (columns df)
  && forallb (fun r => labels_eqb (map fst r) (columns df)) (rows df)
  && forallb (fun name =>
                has_column df name
                && forallb (fun r => column_kind name (field name r))
                           (rows df)) mapping_values.

(** The order of two keys of one type. *)
Definition cell_le (a b : cell) : bool :=
  match a, b with
  | Num p, Num q => Qle_bool p q
  | Str s, Str t => String.leb s t
  | _, _ => false
  end.

(** Keys that can be ordered: all numbers or all strings. *)
Definition comparable (keys : list cell) : bool :=
  forallb is_num keys || forallb is_str keys.

(** What any [kind] of [argsort] guarantees: on comparable keys it returns
    the positions, each once, in ascending key order. *)
Definition sorts (P : Pandas) : Prop :=
  forall keys, comparable keys = true ->
    exists order,
      argsort keys = Ok order
      /\ Permutation order (seq 0 (List.length keys))
      /\ StronglySorted
           (fun a b => cell_le (nth a keys Null) (nth b keys Null) = true)
           order.

(** What only a stable [kind] guarantees: positions of equal keys stay in
    increasing order. *)
Definition stable (P : Pandas) : Prop :=
  forall keys order, argsort keys = Ok order ->
    StronglySorted
      (fun a b => cell_le (nth b keys Null) (nth a keys Null) = true -> a < b)
      order.


(** ** A library to run the model with

    Decimal literals, patterns without metacharacters, insertion sort. *)

Definition digit_of (a : ascii) : option Z :=
  let n := nat_of_ascii a in
  if (48 <=? n) && (n <=? 57) then Some (Z.of_nat (n - 48)) else None.

Fixpoint scan_decimal (s : string) (seen_dot : bool) (num : Z)
    (scale : positive) (digits : nat) : option Q :=
  match s with
  | EmptyString =>
      if digits =? 0 then None else Some (Qred (Qmake num scale))
  | String a t =>
      if Ascii.eqb a "." then
        if seen_dot then None else scan_decimal t true num scale digits
      else
        match digit_of a with
        | Some d =>
            scan_decimal t seen_dot (10 * num + d)%Z
              (if seen_dot then (10 * scale)%positive else scale)
              (S digits)
        | None => None
        end
  end.

Definition parse_decimal (s : string) : option Q :=
  match s with
  | String "-" t =>
      match scan_decimal t false 0%Z 1%positive 0 with
      | Some q => Some (Qopp q)
      | None => None
      end
  | String "+" t => scan_decimal t false 0%Z 1%positive 0
  | _ => scan_decimal s false 0%Z 1%positive 0
  end.

Definition metachars : string := ".^$*+?{}[]\|()".

Fixpoint literal (pat : string) : bool :=
  match pat with
  | EmptyString => true
  | String a t => negb (contains (String a EmptyString) metachars) && literal t
  end.

Definition literal_search (pat : string) : option (string -> bool) :=
  if literal pat then Some (fun s => contains (lower pat) (lower s))
  else None.

Fixpoint insert_by {A : Type} (before : A -> A -> bool) (x : A) (l : list A)
  : list A :=
  match l with
  | [] => [x]
  | y :: t => if before x y then x :: y :: t else y :: insert_by before x t
  end.

Definition isort {A : Type} (before : A -> A -> bool) (l : list A) : list A :=
  fold_right (insert_by before) [] l.

(** Insertion sort of the positions, an earlier position staying before a
    later one of equal key. *)
Definition insertion_argsort (keys : list cell) : result (list nat) :=
  if comparable keys then
    Ok (map fst (isort (fun x y => cell_le (snd x) (snd y))
                       (combine (seq 0 (List.length keys)) keys)))
  else Raise TypeError.


Definition render (c : cell) : string :=
  match c with
  | Str s => s
  | Num _ => "number"
  | Null => "nan"
  end.

Definition reference : Pandas :=
  {| parse_numeric := parse_decimal;
     str_of_value := render;
     re_compile := literal_search;
     argsort := insertion_argsort |}.


(** ** The predicates of the claims *)

(** The cutoff of a row for a community. *)
Definition cutoff_of (c : community) (r : record) : cell :=
  field (cutoff_col_name c) r.

(** The claim's test of a cutoff against optional inclusive bounds: without
    a bound everything passes, with one only a number inside the bounds. *)
Definition within_bounds (lo hi : option Q) (c : cell) : bool :=
  match lo, hi with
  | None, None => true
  | _, _ =>
      match c with
      | Num v =>
          match lo with Some l => Qle_bool l v | None => true end
          && match hi with Some h => Qle_bool v h | None => true end
      | _ => false
      end
  end.

(** The arguments with every empty string filter taken away. *)
Definition clear_empty (o : option string) : option string :=
  if truthy o then o else None.



(** No string filter is set. *)
Definition no_string_filter (args : Namespace) : Prop :=
  truthy (filter_college_code args) = false
  /\ truthy (filter_college_name args) = false
  /\ truthy (filter_branch_code args) = false
  /\ truthy (filter_branch_name args) = false.

(** Every cutoff column is there and holds numbers and nulls only. *)
Definition cutoffs_numeric (df : DataFrame) : Prop :=
  forall c,
    has_column df (cutoff_col_name c) = true
    /\ Forall (fun r => num_or_null (cutoff_of c r) = true) (rows df).

Definition identity_columns : list string :=
  ["College Code"; "College Name"; "Branch Code"; "Branch Name"].

(** What [apply_filters] needs of a frame to run to its end: identity
    columns without numbers, cutoff columns without strings. *)
Definition filterable (df : DataFrame) : Prop :=
  (forall name, In name identity_columns ->
     has_column df name = true
     /\ Forall (fun r => str_or_null (field name r) = true) (rows df))
  /\ cutoffs_numeric df.

Definition narrows (df df' : DataFrame) : Prop :=
  columns df' = columns df /\ subseq (rows df') (rows df).

Definition ge_cell (x : Q) (c : cell) : bool :=
  match c with Num q => Qle_bool x q | _ => false end.

Definition le_cell (x : Q) (c : cell) : bool :=
  match c with Num q => Qle_bool q x | _ => false end.

(** The pattern of a name filter that is set is a well-formed regular
    expression. *)
Definition compiles {P : Pandas} (o : option string) : Prop :=
  match o with
  | Some s => truthy o = true -> exists search, re_compile s = Some search
  | None => True
  end.

Definition patterns_compile {P : Pandas} (args : Namespace) : Prop :=
  compiles (filter_college_name args) /\ compiles (filter_branch_name args).

(** Every row of a frame is named by the column labels. *)
Definition well_formed (df : DataFrame) : Prop :=
  Forall (fun r => map fst r = columns df) (rows df).

(** How one field changes when column [names] are converted by [f]. *)
Definition converted (f : cell -> result cell) (names : list string)
    (p p' : string * cell) : Prop :=
  fst p' = fst p
  /\ if mem (fst p) names then f (snd p) = Ok (snd p') else snd p' = snd p.

(** The raw field names the mapping does not know: neither a code nor a
    display name, the dropped ["_id"] apart. *)
Definition extra_fields (raw : list record) : list string :=
  filter (fun k => negb (String.eqb k "_id")
                   && (negb (mem k mapping_keys)
                       && negb (mem k mapping_values)))
         (all_keys raw).

(** The labels the raw field names get by the renaming. *)
Definition renamed_keys (raw : list record) : list string :=
  map rename_label
      (filter (fun k => negb (String.eqb k "_id")) (all_keys raw)).

(** A label the mapping does not know. *)
Definition unmapped (l : string) : Prop :=
  l <> "_id" /\ ~ In l mapping_keys /\ ~ In l mapping_values.

(** A step that leaves the unmapped fields of a row as they are. *)
Definition keeps (r r' : record) : Prop :=
  forall l, unmapped l -> lookup l r' = lookup l r.

(** The key at a position of a column, and the positions of its nulls and
    of its other keys. *)
Definition key_at (items : list cell) (i : nat) : cell := nth i items Null.

Definition valued_positions (items : list cell) : list nat :=
  filter (fun i => notna (key_at items i)) (seq 0 (List.length items)).

Definition null_positions (items : list cell) : list nat :=
  filter (fun i => isna (key_at items i)) (seq 0 (List.length items)).

(** Positions in the order asked for. *)
Definition ordered_keys (items : list cell) (ascending : bool) (i j : nat)
  : Prop :=
  if ascending then cell_le (key_at items i) (key_at items j) = true
  else cell_le (key_at items j) (key_at items i) = true.

(** Positions of equal keys in increasing order. *)
Definition ties_in_order (items : list cell) (i j : nat) : Prop :=
  cell_le (key_at items i) (key_at items j) = true ->
  cell_le (key_at items j) (key_at items i) = true -> i < j.

(** The row at a position. *)
Definition row_at (rs : list record) (i : nat) : record := nth i rs [].

(** Where [apply_sorting] asks for the nulls. *)
Definition nulls_last (column : string) (direction : sort_direction) : bool :=
  if mem column CUTOFF_COLUMNS
  then match direction with asc => true | desc => false end
  else true.

(** The environment with the renderer made present or absent. *)
Definition with_pisa (available : bool) (env : Env) : Env :=
  mkEnv available (http_get env) (export_ok env).

(** The order of two rows by their keys in a column. *)
Definition rows_ordered (column : string) (direction : sort_direction)
    (r1 r2 : record) : Prop :=
  match direction with
  | asc => cell_le (field column r1) (field column r2) = true
  | desc => cell_le (field column r2) (field column r1) = true
  end.

(** Sample data for the examples. *)
Definition sample_raw : list record :=
  [ [("_id", Str "a1"); ("coc", Str "1"); ("con", Str "Alpha College");
     ("brc", Str "CS"); ("brn", Str "Computer Science");
     ("OC", Str "200"); ("octl", Str "5"); ("note", Str "x")];
    [("_id", Str "a2"); ("coc", Str "2"); ("con", Str "Beta College");
     ("brc", Str "EC"); ("brn", Str "Electronics");
     ("OC", Str ""); ("octl", Str "4")];
    [("_id", Str "a3"); ("coc", Str "3"); ("con", Str "Gamma College");
     ("brc", Str "CS"); ("brn", Str "Computer Science");
     ("OC", Str "150"); ("octl", Str ""); ("note", Str "y")];
    [("_id", Str "a4"); ("coc", Str "4"); ("con", Str "Delta College");
     ("brc", Str "ME"); ("brn", Str "Mechanical");
     ("OC", Str "150"); ("octl", Str "7")] ].

Definition sample_table : DataFrame :=
  Eval vm_compute in
    match @process_data reference sample_raw with
    | Ok df => df
    | Raise _ => empty_frame
    end.

Definition no_bound (c : community) : option Q := None.

Definition sample_args : Namespace :=
  mkArgs 2024%Z (Some "out.xlsx") excel false false false
    None None None None no_bound no_bound None asc.

(** [--min-oc-cutoff 150 --max-oc-cutoff 180] *)
Definition oc_between (lo hi : Q) (args : Namespace) : Namespace :=
  mkArgs (year args) (output_file args) (format args) (list_colleges args)
    (list_branches args) (list_sortable_columns args)
    (filter_college_code args) (filter_college_name args)
    (filter_branch_code args) (filter_branch_name args)
    (fun c => match c with OC => Some lo | _ => min_cutoff args c end)
    (fun c => match c with OC => Some hi | _ => max_cutoff args c end)
    (sort_by args) (sort_order args).

(** [--sort-by s --sort-order d] *)
Definition sorted_by (s : string) (d : sort_direction) (args : Namespace)
  : Namespace :=
  mkArgs (year args) (output_file args) (format args) (list_colleges args)
    (list_branches args) (list_sortable_columns args)
    (filter_college_code args) (filter_college_name args)
    (filter_branch_code args) (filter_branch_name args)
    (min_cutoff args) (max_cutoff args) (Some s) d.

(** [--year y] *)
Definition for_year (y : Z) (args : Namespace) : Namespace :=
  mkArgs y (output_file args) (format args) (list_colleges args)
    (list_branches args) (list_sortable_columns args)
    (filter_college_code args) (filter_college_name args)
    (filter_branch_code args) (filter_branch_name args)
    (min_cutoff args) (max_cutoff args) (sort_by args) (sort_order args).

(** [--format f] *)
Definition in_format (f : export_format) (args : Namespace) : Namespace :=
  mkArgs (year args) (output_file args) f (list_colleges args)
    (list_branches args) (list_sortable_columns args)
    (filter_college_code args) (filter_college_name args)
    (filter_branch_code args) (filter_branch_name args)
    (min_cutoff args) (max_cutoff args) (sort_by args) (sort_order args).

(** [--filter-college-name s] *)
Definition named (s : string) (args : Namespace) : Namespace :=
  mkArgs (year args) (output_file args) (format args) (list_colleges args)
    (list_branches args) (list_sortable_columns args)
    (filter_college_code args) (Some s)
    (filter_branch_code args) (filter_branch_name args)
    (min_cutoff args) (max_cutoff args) (sort_by args) (sort_order args).

Definition sample_env : Env :=
  mkEnv false (fun _ => Json sample_raw) (fun _ _ _ => true).

(** The flags [main] asks for once [--list-sortable-columns] is not given:
    a list action or an output file. *)
Definition flags_complete (args : Namespace) : Prop :=
  negb (list_colleges args || list_branches args)
  && negb (truthy (output_file args)) = false.

(** An event that is not the writing of a file. *)
Definition writes_nothing (e : event) : Prop :=
  match e with
  | FileWritten _ _ _ => False
  | _ => True
  end.



(** ** Runs of the script *)

(** The code a [Fetching data from] line names. *)
Definition fetches (e : event) : list string :=
  match e with
  | Print (FetchingFrom code) => [code]
  | _ => []
  end.

(** The two diagnostics of [main] that stand in branches no run takes. *)
Definition in_dead_branch (e : event) : Prop :=
  match e with
  | PrintErr (InvalidYear _) => True
  | PrintErr NoDataToProcess => True
  | _ => False
  end.

(** The command line is refused: the year is not a supported one, or no
    output file is given although no list action is asked for. *)
Definition usage_error (argv : Namespace) : Prop :=
  year_code (year argv) YEAR_TO_API_CODE = None
  \/ (list_sortable_columns argv = false
      /\ list_colleges argv = false /\ list_branches argv = false
      /\ truthy (output_file argv) = false).

(** ** Normal forms of cells *)

Section NormalForms.

Context {P : Pandas}.


End NormalForms.

(** ** The tests of the filters on one row *)

(** The frame of the rows that pass a test. *)
Definition kept_by (test : record -> bool) (df : DataFrame) : DataFrame :=
  mkFrame (columns df) (filter test (rows df)).

Section RowTests.

Context {P : Pandas}.

(** [df['College Code'].astype(str) == code] *)
Definition code_matches (code : string) (r : record) : bool :=
  String.eqb (astype_str (field "College Code" r)) code.

(** [df[label].str.contains(pat, case=False, na=False)] *)
Definition name_matches (label pat : string) (r : record) : bool :=
  match re_compile pat, field label r with
  | Some search, Str s => search s
  | _, _ => false
  end.

(** [df['Branch Code'].str.upper() == code.upper()] *)
Definition branch_matches (code : string) (r : record) : bool :=
  match field "Branch Code" r with
  | Str s => String.eqb (upper s) (upper code)
  | _ => false
  end.

(** A test applied only when its argument is given and not empty. *)
Definition when_set (arg : option string) (test : string -> record -> bool)
    (r : record) : bool :=
  match arg with
  | Some s => if truthy arg then test s r else true
  | None => true
  end.

(** The conjunction of all the tests of [apply_filters]. *)
Definition passes (args : Namespace) (r : record) : bool :=
  when_set (filter_college_code args) code_matches r
  && when_set (filter_college_name args) (name_matches "College Name") r
  && when_set (filter_branch_code args) branch_matches r
  && when_set (filter_branch_name args) (name_matches "Branch Name") r
  && forallb (fun c => within_bounds (min_cutoff args c) (max_cutoff args c)
                         (cutoff_of c r)) communities.


End RowTests.

(** ** Listings *)

(** The two cells of a row that a listing shows. *)
Definition pair_of (code_column column_name : string) (r : record) : record :=
  [(code_column, field code_column r); (column_name, field column_name r)].

(** A record without its ["_id"] field. *)
Definition without_id (rec : record) : record :=
  filter (fun p => negb (String.eqb (fst p) "_id")) rec.

(** ** The inverse of the year table *)

(** [d[k] = v] on a dictionary kept as its items in order. *)
Fixpoint setitem (k : string) (v : Z) (d : list (string * Z))
  : list (string * Z) :=
  match d with
  | [] => [(k, v)]
  | (k', v') :: t =>
      if String.eqb k' k then (k, v) :: t else (k', v') :: setitem k v t
  end.

(** [{v: k for k, v in YEAR_TO_API_CODE.items()}] *)
Definition API_CODE_TO_YEAR : list (string * Z) :=
  fold_left (fun d kv => setitem (snd kv) (fst kv) d) YEAR_TO_API_CODE [].

(** * Properties *)

(** ** Generic facts *)

Lemma subseq_refl {A : Type} (l : list A) : subseq l l.
Proof. induction l; constructor; assumption. Qed.

Lemma subseq_trans {A : Type} (l1 l2 l3 : list A) :
  subseq l1 l2 -> subseq l2 l3 -> subseq l1 l3.
Proof.
  intros H12 H23. revert l1 H12.
  induction H23; intros l0 H12.
  - assumption.
  - apply subseq_skip. apply IHsubseq. assumption.
  - inversion H12; subst.
    + apply subseq_skip. apply IHsubseq. assumption.
    + apply subseq_keep. apply IHsubseq. assumption.
Qed.

Lemma subseq_filter {A : Type} (f : A -> bool) (l : list A) :
  subseq (filter f l) l.
Proof.
  induction l as [|x l IH]; simpl.
  - constructor.
  - destruct (f x); constructor; assumption.
Qed.

Lemma subseq_In {A : Type} (l1 l2 : list A) :
  subseq l1 l2 -> forall x, In x l1 -> In x l2.
Proof.
  induction 1; intros y Hy; simpl in *; auto.
  destruct Hy; auto.
Qed.

Lemma subseq_Forall {A : Type} (Q : A -> Prop) (l1 l2 : list A) :
  subseq l1 l2 -> Forall Q l2 -> Forall Q l1.
Proof.
  intros Hs HF. rewrite Forall_forall in *.
  intros x Hx. apply HF. eapply subseq_In; eauto.
Qed.

Lemma masked_subseq {A : Type} (l : list A) (mask : list bool) :
  subseq (map fst (filter snd (combine l mask))) l.
Proof.
  revert mask. induction l as [|x l IH]; intros mask; simpl.
  - constructor.
  - destruct mask as [|b mask]; simpl.
    + constructor. specialize (IH []). destruct l; exact IH.
    + destruct b; simpl; constructor; apply IH.
Qed.

Lemma masked_filter {A : Type} (f : A -> bool) (l : list A) :
  map fst (filter snd (combine l (map f l))) = filter f l.
Proof.
  induction l as [|x l IH]; simpl; [reflexivity|].
  destruct (f x); simpl; rewrite IH; reflexivity.
Qed.

Lemma filter_filter {A : Type} (f g : A -> bool) (l : list A) :
  filter g (filter f l) = filter (fun x => f x && g x) l.
Proof.
  induction l as [|x l IH]; simpl; [reflexivity|].
  destruct (f x); simpl; [destruct (g x)|]; rewrite IH; reflexivity.
Qed.

Lemma mapM_total {A B : Type} (f : A -> result B) (g : A -> B) (l : list A) :
  Forall (fun a => f a = Ok (g a)) l -> mapM f l = Ok (map g l).
Proof.
  induction 1 as [|a l Ha _ IH]; simpl; [reflexivity|].
  rewrite Ha. simpl. rewrite IH. reflexivity.
Qed.

Lemma Ok_inj {A : Type} (a b : A) : Ok a = Ok b -> a = b.
Proof. intros H. injection H as H. exact H. Qed.

Lemma bind_Ok {A B : Type} (m : result A) (k : A -> result B) (b : B) :
  bind m k = Ok b -> exists a, m = Ok a /\ k a = Ok b.
Proof. destruct m; simpl; intros H; [eauto | discriminate]. Qed.

(** ** Filtering narrows a frame *)

Lemma narrows_refl df : narrows df df.
Proof. split; [reflexivity | apply subseq_refl]. Qed.

Lemma narrows_trans df1 df2 df3 :
  narrows df1 df2 -> narrows df2 df3 -> narrows df1 df3.
Proof.
  intros [C12 S12] [C23 S23]. split.
  - congruence.
  - eapply subseq_trans; eassumption.
Qed.

Lemma boolean_index_narrows df mask : narrows df (boolean_index df mask).
Proof. split; [reflexivity | apply masked_subseq]. Qed.

Ltac ok_steps :=
  repeat match goal with
         | H : bind _ _ = Ok _ |- _ =>
             apply bind_Ok in H; destruct H as (? & ? & H)
         | H : Ok _ = Ok _ |- _ => injection H as H; subst
         | H : Raise _ = Ok _ |- _ => discriminate H
         end.

Section FilterFacts.

Context {P : Pandas}.

Lemma filter_code_narrows code df df' :
  filter_code code df = Ok df' -> narrows df df'.
Proof.
  unfold filter_code. intros H. ok_steps. apply boolean_index_narrows.
Qed.

Lemma filter_name_narrows label pat df df' :
  filter_name label pat df = Ok df' -> narrows df df'.
Proof.
  unfold filter_name. intros H. ok_steps. apply boolean_index_narrows.
Qed.

Lemma filter_branch_code_narrows code df df' :
  filter_branch_code_eq code df = Ok df' -> narrows df df'.
Proof.
  unfold filter_branch_code_eq. intros H. ok_steps.
  apply boolean_index_narrows.
Qed.

Lemma if_set_narrows arg f df df' :
  (forall s d d', f s d = Ok d' -> narrows d d') ->
  if_set arg f df = Ok df' -> narrows df df'.
Proof.
  intros Hf. unfold if_set.
  destruct (truthy arg); [destruct arg|]; intros H.
  - eapply Hf; eassumption.
  - injection H as <-. apply narrows_refl.
  - injection H as <-. apply narrows_refl.
Qed.




Lemma if_set_clear arg f df :
  if_set (clear_empty arg) f df = if_set arg f df.
Proof.
  unfold if_set, clear_empty.
  destruct arg as [[|a s]|]; reflexivity.
Qed.



Lemma getitem_has df name :
  has_column df name = true ->
  getitem df name = Ok (map (field name) (rows df)).
Proof. unfold getitem. intros ->. reflexivity. Qed.



Lemma ge_scalar_numeric col lo :
  Forall (fun c => num_or_null c = true) col ->
  ge_scalar col lo = Ok (map (ge_cell lo) col).
Proof.
  intros H. apply mapM_total.
  induction H as [|c col Hc _ IH]; constructor; auto.
  destruct c; simpl in *; try reflexivity; discriminate.
Qed.

Lemma le_scalar_numeric col hi :
  Forall (fun c => num_or_null c = true) col ->
  le_scalar col hi = Ok (map (le_cell hi) col).
Proof.
  intros H. apply mapM_total.
  induction H as [|c col Hc _ IH]; constructor; auto.
  destruct c; simpl in *; try reflexivity; discriminate.
Qed.

Lemma boolean_index_filter df name (f : cell -> bool) :
  boolean_index df (map f (map (field name) (rows df)))
  = mkFrame (columns df) (filter (fun r => f (field name r)) (rows df)).
Proof.
  unfold boolean_index. rewrite map_map.
  rewrite (masked_filter (fun r => f (field name r))). reflexivity.
Qed.

Lemma Forall_filter_keep {A : Type} (Q : A -> Prop) (f : A -> bool) l :
  Forall Q l -> Forall Q (filter f l).
Proof. intros H. eapply subseq_Forall; [apply subseq_filter | exact H]. Qed.

Lemma Forall_map_iff {A B : Type} (Q : B -> Prop) (g : A -> B) l :
  Forall Q (map g l) <-> Forall (fun a => Q (g a)) l.
Proof. apply Forall_map. Qed.

Lemma filter_true {A : Type} (l : list A) : filter (fun _ => true) l = l.
Proof. induction l; simpl; congruence. Qed.

Lemma frame_eta df : mkFrame (columns df) (rows df) = df.
Proof. destruct df; reflexivity. Qed.

Lemma frame_rows_eq cols (r1 r2 : list record) :
  r1 = r2 -> Ok (mkFrame cols r1) = Ok (mkFrame cols r2).
Proof. intros ->. reflexivity. Qed.

Lemma within_bounds_cells lo hi c :
  within_bounds lo hi c
  = match lo with Some l => ge_cell l c | None => true end
    && match hi with Some h => le_cell h c | None => true end.
Proof.
  destruct lo, hi, c; simpl; try reflexivity;
    rewrite ?andb_true_r, ?andb_false_r; reflexivity.
Qed.

Lemma cutoff_round_spec args df c :
  has_column df (cutoff_col_name c) = true ->
  Forall (fun r => num_or_null (cutoff_of c r) = true) (rows df) ->
  cutoff_round args df c
  = Ok (mkFrame (columns df)
          (filter (fun r => within_bounds (min_cutoff args c)
                              (max_cutoff args c) (cutoff_of c r))
                  (rows df))).
Proof.
  intros Hi Hnum. unfold cutoff_round, cutoff_of in *.
  destruct (min_cutoff args c) as [lo|], (max_cutoff args c) as [hi|].
  - rewrite (getitem_has _ _ Hi). cbn [bind].
    rewrite ge_scalar_numeric by (apply Forall_map_iff; exact Hnum).
    cbn [bind]. rewrite boolean_index_filter.
    unfold getitem. unfold has_column in *. cbn [columns rows].
    rewrite Hi. cbn [bind].
    rewrite le_scalar_numeric
      by (apply Forall_map_iff; apply Forall_filter_keep; exact Hnum).
    cbn [bind].
    rewrite (boolean_index_filter
               (mkFrame (columns df)
                  (filter (fun r => ge_cell lo (field (cutoff_col_name c) r))
                          (rows df)))).
    cbn [columns rows]. rewrite filter_filter. apply frame_rows_eq.
    apply filter_ext; intros r.
    destruct (field (cutoff_col_name c) r); simpl; rewrite ?andb_true_r;
      reflexivity.
  - rewrite (getitem_has _ _ Hi). cbn [bind].
    rewrite ge_scalar_numeric by (apply Forall_map_iff; exact Hnum).
    cbn [bind]. rewrite boolean_index_filter. apply frame_rows_eq.
    apply filter_ext; intros r.
    destruct (field (cutoff_col_name c) r); simpl; rewrite ?andb_true_r;
      reflexivity.
  - cbn [bind]. rewrite (getitem_has _ _ Hi). cbn [bind].
    rewrite le_scalar_numeric by (apply Forall_map_iff; exact Hnum).
    cbn [bind]. rewrite boolean_index_filter. apply frame_rows_eq.
    apply filter_ext; intros r.
    destruct (field (cutoff_col_name c) r); simpl; rewrite ?andb_true_r;
      reflexivity.
  - cbn [bind]. simpl. rewrite filter_true, frame_eta. reflexivity.
Qed.

Lemma cutoff_loop_spec args cs : forall df,
  cutoffs_numeric df ->
  foldM (cutoff_round args) cs df
  = Ok (mkFrame (columns df)
          (filter (fun r => forallb
                     (fun c => within_bounds (min_cutoff args c)
                                 (max_cutoff args c) (cutoff_of c r)) cs)
                  (rows df))).
Proof.
  induction cs as [|c cs IH]; intros df Hnum; simpl.
  - rewrite filter_true, frame_eta. reflexivity.
  - destruct (Hnum c) as (Hi & HF).
    rewrite (cutoff_round_spec args _ _ Hi HF). cbn [bind].
    rewrite IH.
    + cbn [columns rows]. rewrite filter_filter. reflexivity.
    + intros c'. destruct (Hnum c') as (Hj & HFj).
      split; [exact Hj|]. cbn [rows].
      apply Forall_filter_keep. exact HFj.
Qed.

Lemma if_set_unset arg f df : truthy arg = false -> if_set arg f df = Ok df.
Proof. unfold if_set. intros ->. reflexivity. Qed.

Lemma empty_rows_or_columns df :
  empty df = true -> rows df = [] \/ columns df = [].
Proof.
  unfold empty. destruct (rows df); [auto|].
  destruct (columns df); [auto | discriminate].
Qed.

Lemma cutoff_filter_spec df args :
  cutoffs_numeric df -> no_string_filter args ->
  apply_filters df args
  = Ok (mkFrame (columns df)
          (filter (fun r => forallb
                     (fun c => within_bounds (min_cutoff args c)
                                 (max_cutoff args c) (cutoff_of c r))
                     communities)
                  (rows df))).
Proof.
  intros Hnum (H1 & H2 & H3 & H4). unfold apply_filters.
  destruct (empty df) eqn:E.
  - apply empty_rows_or_columns in E. destruct E as [E|E].
    + rewrite E. simpl. rewrite <- E. rewrite frame_eta. reflexivity.
    + destruct (Hnum OC) as (Hi & _). unfold has_column in Hi.
      rewrite E in Hi. discriminate.
  - rewrite if_set_unset by exact H1. cbn [bind].
    rewrite if_set_unset by exact H2. cbn [bind].
    rewrite if_set_unset by exact H3. cbn [bind].
    rewrite if_set_unset by exact H4. cbn [bind].
    apply cutoff_loop_spec. exact Hnum.
Qed.






Lemma apply_filters_columns_stages df args d4 :
  (d1 <- if_set (filter_college_code args) filter_code df ;;
   d2 <- if_set (filter_college_name args) (filter_name "College Name") d1 ;;
   d3 <- if_set (filter_branch_code args) filter_branch_code_eq d2 ;;
   if_set (filter_branch_name args) (filter_name "Branch Name") d3) = Ok d4 ->
  narrows df d4.
Proof.
  intros H.
  apply bind_Ok in H. destruct H as (d1 & H1 & H).
  apply bind_Ok in H. destruct H as (d2 & H2 & H).
  apply bind_Ok in H. destruct H as (d3 & H3 & H4).
  apply if_set_narrows in H1; [|intros; eapply filter_code_narrows; eauto].
  apply if_set_narrows in H2; [|intros; eapply filter_name_narrows; eauto].
  apply if_set_narrows in H3;
    [|intros; eapply filter_branch_code_narrows; eauto].
  apply if_set_narrows in H4; [|intros; eapply filter_name_narrows; eauto].
  repeat (eapply narrows_trans; [eassumption|]). apply narrows_refl.
Qed.


(** *** Frames on which the filters run to their end *)

Lemma str_accessor_ok col :
  Forall (fun c => str_or_null c = true) col -> str_accessor col = Ok col.
Proof.
  intros H. unfold str_accessor.
  assert (E : existsb notna col
              && forallb (fun c => isna c || is_num c) col = false).
  { induction H as [|c col Hc _ IH]; [reflexivity|].
    destruct c; simpl in *; try discriminate; auto;
      rewrite ?andb_false_r; reflexivity. }
  rewrite E. reflexivity.
Qed.

Lemma filterable_narrows df df' :
  filterable df -> narrows df df' -> filterable df'.
Proof.
  intros [Hid Hcut] [C S]. split.
  - intros name Hn. destruct (Hid name Hn) as (Hi & HF).
    unfold has_column in *. rewrite C. split; [exact Hi|].
    eapply subseq_Forall; eassumption.
  - intros c. destruct (Hcut c) as (Hi & HF).
    unfold has_column in *. rewrite C. split; [exact Hi|].
    eapply subseq_Forall; eassumption.
Qed.






End FilterFacts.

(** ** Normalisation *)

Lemma mapM_Forall2 {A B : Type} (f : A -> result B) l l' :
  mapM f l = Ok l' -> Forall2 (fun a b => f a = Ok b) l l'.
Proof.
  revert l'. induction l as [|a l IH]; simpl; intros l' H.
  - injection H as <-. constructor.
  - apply bind_Ok in H. destruct H as (b & Hb & H).
    apply bind_Ok in H. destruct H as (bs & Hbs & H).
    injection H as <-. constructor; auto.
Qed.

Lemma Forall2_In_r {A B : Type} (R : A -> B -> Prop) l l' y :
  Forall2 R l l' -> In y l' -> exists x, In x l /\ R x y.
Proof.
  induction 1 as [|a b l l' Hab _ IH]; intros Hy; [destruct Hy|].
  destruct Hy as [<-|Hy].
  - exists a. split; [left; reflexivity | exact Hab].
  - destruct (IH Hy) as (x & Hx & HR). exists x. split; [right|]; auto.
Qed.

Lemma Forall2_impl {A B : Type} (R R' : A -> B -> Prop) l l' :
  (forall a b, R a b -> R' a b) -> Forall2 R l l' -> Forall2 R' l l'.
Proof. intros H. induction 1; constructor; auto. Qed.

Lemma Forall2_compose {A : Type} (R1 R2 R3 : A -> A -> Prop) l1 l2 l3 :
  (forall x y z, R1 x y -> R2 y z -> R3 x z) ->
  Forall2 R1 l1 l2 -> Forall2 R2 l2 l3 -> Forall2 R3 l1 l3.
Proof.
  intros H H12. revert l3. induction H12; intros l3 H23; inversion H23; subst.
  - constructor.
  - constructor; eauto.
Qed.

Lemma Forall2_same {A : Type} (R : A -> A -> Prop) l :
  (forall x, In x l -> R x x) -> Forall2 R l l.
Proof.
  induction l as [|a l IH]; intros H; constructor.
  - apply H. left. reflexivity.
  - apply IH. intros x Hx. apply H. right. exact Hx.
Qed.

Lemma mem_In s l : mem s l = true <-> In s l.
Proof.
  unfold mem. rewrite existsb_exists. split.
  - intros (x & Hx & E). apply String.eqb_eq in E. subst. exact Hx.
  - intros H. exists s. split; [exact H | apply String.eqb_refl].
Qed.

Lemma mem_false s l : mem s l = false <-> ~ In s l.
Proof.
  rewrite <- mem_In. destruct (mem s l); split; intros; congruence.
Qed.

Lemma has_column_In df name : has_column df name = true <-> In name (columns df).
Proof. apply mem_In. Qed.

Lemma lookup_In {V : Type} k (r : list (string * V)) v :
  lookup k r = Some v -> In (k, v) r.
Proof.
  induction r as [|[k' v'] r IH]; simpl; [discriminate|].
  destruct (String.eqb_spec k' k).
  - intros H. injection H as ->. subst. left. reflexivity.
  - intros H. right. apply IH. exact H.
Qed.

Lemma field_cases k r : field k r = Null \/ In (k, field k r) r.
Proof.
  unfold field. destruct (lookup k r) eqn:E; [right | left; reflexivity].
  apply lookup_In. exact E.
Qed.

Section NormalizerFacts.

Context {P : Pandas}.

Lemma assign_column_Ok f df name df' :
  well_formed df ->
  assign_column f df name = Ok df' ->
  well_formed df' /\ columns df' = columns df
  /\ Forall2 (Forall2 (converted f [name])) (rows df) (rows df').
Proof.
  intros W. unfold assign_column.
  destruct (has_column df name) eqn:Hc.
  - destruct (1 <? count_occ string_dec (columns df) name); [discriminate|].
    intros H. apply bind_Ok in H. destruct H as (rs & Hrs & H).
    injection H as <-. cbn [columns rows].
    apply mapM_Forall2 in Hrs.
    assert (F : Forall2 (Forall2 (converted f [name])) (rows df) rs).
    { eapply Forall2_impl; [|exact Hrs]. intros r r' Hr.
      apply mapM_Forall2 in Hr.
      eapply Forall2_impl; [|exact Hr]. intros p p' Hp.
      unfold converted, mem. cbv beta in Hp. simpl.
      destruct (String.eqb (fst p) name); simpl.
      - apply bind_Ok in Hp. destruct Hp as (c & Hcv & Hp).
        injection Hp as <-. simpl. split; [reflexivity | exact Hcv].
      - injection Hp as <-. split; reflexivity. }
    split; [|split; [reflexivity | exact F]].
    unfold well_formed in *. cbn [columns rows].
    clear Hrs. induction F as [|r r' rs0 rs' Hr _ IH]; [constructor|].
    inversion W; subst. constructor; [|apply IH; assumption].
    rewrite <- H1. clear -Hr.
    induction Hr as [|p p' r r' [Hp _] _ IH]; simpl; congruence.
  - intros H. injection H as <-. split; [exact W|]. split; [reflexivity|].
    apply Forall2_same. intros r Hr. apply Forall2_same. intros p Hp.
    unfold converted, mem. simpl.
    assert (N : String.eqb (fst p) name = false).
    { apply String.eqb_neq. intros <-.
      unfold well_formed in W. rewrite Forall_forall in W.
      specialize (W r Hr).
      assert (Hin : In (fst p) (columns df))
        by (rewrite <- W; apply in_map; exact Hp).
      apply has_column_In in Hin. congruence. }
    rewrite N. simpl. split; reflexivity.
Qed.

Lemma fold_assign_Ok f names : forall df df',
  NoDup names ->
  well_formed df ->
  foldM (assign_column f) names df = Ok df' ->
  well_formed df' /\ columns df' = columns df
  /\ Forall2 (Forall2 (converted f names)) (rows df) (rows df').
Proof.
  induction names as [|n ns IH]; intros df df' ND W H.
  - injection H as <-. split; [exact W|]. split; [reflexivity|].
    apply Forall2_same. intros r _. apply Forall2_same. intros p _.
    split; reflexivity.
  - simpl in H. apply bind_Ok in H. destruct H as (d1 & H1 & H2).
    inversion ND as [|? ? Hn ND']; subst.
    destruct (assign_column_Ok _ _ W H1) as (W1 & C1 & F1).
    destruct (IH _ _ ND' W1 H2) as (W2 & C2 & F2).
    split; [exact W2|]. split; [congruence|].
    eapply Forall2_compose; [|exact F1|exact F2].
    intros r r1 r2 Hr1 Hr2.
    eapply Forall2_compose; [|exact Hr1|exact Hr2].
    intros p p1 p2 [E1 S1] [E2 S2]. unfold converted, mem in *. simpl in *.
    rewrite E1 in E2, S2. split; [exact E2|].
    destruct (String.eqb_spec (fst p) n) as [E|E].
    + rewrite orb_false_r in S1.
      assert (M : existsb (String.eqb (fst p)) ns = false).
      { apply mem_false. rewrite E. exact Hn. }
      rewrite M in S2. rewrite S2. exact S1.
    + rewrite orb_false_r in S1. rewrite S1 in *. exact S2.
Qed.


Lemma process_data_cons r raw :
  process_data (r :: raw)
  = (d3 <- foldM (assign_column (fun c => Ok (to_numeric c))) CUTOFF_COLUMNS
             (prepared (r :: raw)) ;;
     d4 <- foldM (assign_column (fun c => astype_Int64 (to_numeric c)))
             seat_cols d3 ;;
     Ok (reordered d4)).
Proof. reflexivity. Qed.

Lemma process_data_steps raw df :
  raw <> [] ->
  process_data raw = Ok df ->
  exists d3 d4,
    foldM (assign_column (fun c => Ok (to_numeric c))) CUTOFF_COLUMNS
          (prepared raw) = Ok d3
    /\ foldM (assign_column (fun c => astype_Int64 (to_numeric c))) seat_cols
             d3 = Ok d4
    /\ df = reordered d4.
Proof.
  intros Hne H. destruct raw as [|r raw]; [contradiction|].
  rewrite process_data_cons in H.
  generalize dependent (prepared (r :: raw)). intros d2 H.
  apply bind_Ok in H. destruct H as (d3 & H3 & H).
  apply bind_Ok in H. destruct H as (d4 & H4 & H).
  apply Ok_inj in H. exists d3, d4. auto.
Qed.

Lemma map_fst_filter (g : string -> bool) (r : record) :
  map fst (filter (fun p => g (fst p)) r) = filter g (map fst r).
Proof.
  induction r as [|p r IH]; simpl; [reflexivity|].
  destruct (g (fst p)); simpl; rewrite IH; reflexivity.
Qed.

Lemma well_formed_frame raw : well_formed (frame_of_records raw).
Proof.
  unfold well_formed, frame_of_records. cbn [columns rows].
  apply Forall_forall. intros r Hr. apply in_map_iff in Hr.
  destruct Hr as (rec & <- & _). rewrite map_map. simpl. apply map_id.
Qed.

Lemma well_formed_drop name df :
  well_formed df -> well_formed (drop_column name df).
Proof.
  unfold well_formed, drop_column. cbn [columns rows]. intros W.
  apply Forall_forall. intros r Hr. apply in_map_iff in Hr.
  destruct Hr as (r0 & <- & Hr0). rewrite Forall_forall in W.
  rewrite <- (W r0 Hr0).
  apply (map_fst_filter (fun l => negb (String.eqb l name))).
Qed.

Lemma well_formed_rename df : well_formed df -> well_formed (rename df).
Proof.
  unfold well_formed, rename. cbn [columns rows]. intros W.
  apply Forall_forall. intros r Hr. apply in_map_iff in Hr.
  destruct Hr as (r0 & <- & Hr0). rewrite Forall_forall in W.
  rewrite <- (W r0 Hr0). rewrite !map_map. reflexivity.
Qed.

Lemma well_formed_ensure df name :
  well_formed df -> well_formed (ensure_column df name).
Proof.
  unfold well_formed, ensure_column. intros W.
  destruct (has_column df name); [exact W|]. cbn [columns rows].
  apply Forall_forall. intros r Hr. apply in_map_iff in Hr.
  destruct Hr as (r0 & <- & Hr0). rewrite Forall_forall in W.
  rewrite <- (W r0 Hr0). rewrite map_app. reflexivity.
Qed.

Lemma ensure_column_keeps df name l :
  In l (columns df) -> In l (columns (ensure_column df name)).
Proof.
  unfold ensure_column. destruct (has_column df name); [auto|].
  cbn [columns]. intros H. apply in_or_app. auto.
Qed.

Lemma ensure_column_has df name : In name (columns (ensure_column df name)).
Proof.
  unfold ensure_column. destruct (has_column df name) eqn:E.
  - apply has_column_In. exact E.
  - cbn [columns]. apply in_or_app. right. left. reflexivity.
Qed.

Lemma fold_ensure names : forall df,
  well_formed df ->
  well_formed (fold_left ensure_column names df)
  /\ (forall l, In l (columns df) \/ In l names ->
                In l (columns (fold_left ensure_column names df))).
Proof.
  induction names as [|n ns IH]; intros df W; simpl.
  - split; [exact W|]. intros l [H|[]]. exact H.
  - destruct (IH (ensure_column df n) (well_formed_ensure n W)) as [W' K].
    split; [exact W'|]. intros l [H|[<-|H]]; apply K; auto.
    + left. apply ensure_column_keeps. exact H.
    + left. apply ensure_column_has.
Qed.

Lemma prepared_facts raw :
  well_formed (prepared raw)
  /\ forall l, In l mapping_values -> In l (columns (prepared raw)).
Proof.
  unfold prepared.
  assert (W : well_formed
                (rename (if has_column (frame_of_records raw) "_id"
                         then drop_column "_id" (frame_of_records raw)
                         else frame_of_records raw))).
  { apply well_formed_rename.
    destruct (has_column (frame_of_records raw) "_id");
      [apply well_formed_drop|]; apply well_formed_frame. }
  destruct (fold_ensure mapping_values W) as [W' K].
  split; [exact W'|]. intros l Hl. apply K. auto.
Qed.

Lemma reordered_rows df r :
  In r (rows (reordered df)) ->
  exists r0, In r0 (rows df) /\ forall p, In p r -> In p r0.
Proof.
  unfold reordered, select. cbn [rows]. intros Hr.
  apply in_map_iff in Hr. destruct Hr as (r0 & <- & Hr0).
  exists r0. split; [exact Hr0|]. intros p Hp.
  apply in_flat_map in Hp. destruct Hp as (l & _ & Hp).
  unfold fields_of in Hp. apply filter_In in Hp. tauto.
Qed.

Lemma reordered_has df l :
  In l mapping_values -> In l (columns df) -> In l (columns (reordered df)).
Proof.
  intros Hm Hc. unfold reordered, select. cbn [columns].
  apply in_flat_map. exists l. split.
  - apply in_or_app. left. apply filter_In. split; [exact Hm|].
    apply has_column_In. exact Hc.
  - apply filter_In. split; [exact Hc | apply String.eqb_refl].
Qed.

Lemma distinct_NoDup l : distinct l = true -> NoDup l.
Proof.
  induction l as [|a l IH]; simpl; intros H; constructor.
  - apply andb_prop in H. destruct H as [H _].
    apply negb_true_iff in H. apply mem_false. exact H.
  - apply IH. apply andb_prop in H. tauto.
Qed.

Lemma NoDup_CUTOFF_COLUMNS : NoDup CUTOFF_COLUMNS.
Proof. apply distinct_NoDup. vm_compute. reflexivity. Qed.

Lemma NoDup_seat_cols : NoDup seat_cols.
Proof. apply distinct_NoDup. vm_compute. reflexivity. Qed.

(** Every cell a converted column holds after normalisation. *)
Lemma normalized_column (Q : cell -> bool) raw df name :
  raw <> [] ->
  process_data raw = Ok df ->
  Q Null = true ->
  (mem name CUTOFF_COLUMNS = true /\ (forall c, Q (to_numeric c) = true)
   \/ mem name seat_cols = true
      /\ (forall c c', astype_Int64 (to_numeric c) = Ok c' -> Q c' = true)) ->
  In name (columns df)
  /\ Forall (fun r => Q (field name r) = true) (rows df).
Proof.
  intros Hne H QN HQ.
  destruct (process_data_steps Hne H) as (d3 & d4 & H3 & H4 & ->).
  destruct (prepared_facts raw) as [W2 K2].
  destruct (fold_assign_Ok _ NoDup_CUTOFF_COLUMNS W2 H3) as (W3 & C3 & F3).
  destruct (fold_assign_Ok _ NoDup_seat_cols W3 H4) as (W4 & C4 & F4).
  assert (Hm : In name mapping_values).
  { destruct HQ as [[M _]|[M _]]; apply mem_In in M; revert M; clear;
      vm_compute; tauto. }
  split.
  - apply reordered_has; [exact Hm|]. rewrite C4, C3. apply K2. exact Hm.
  - apply Forall_forall. intros r Hr.
    destruct (field_cases name r) as [->|Hin]; [exact QN|].
    destruct (reordered_rows _ _ Hr) as (r4 & Hr4 & Sub).
    apply Sub in Hin.
    destruct (@Forall2_In_r _ _ _ _ _ _ F4 Hr4) as (r3 & Hr3 & R34).
    destruct (@Forall2_In_r _ _ _ _ _ _ R34 Hin) as (p3 & Hp3 & [E3 S3]).
    destruct (@Forall2_In_r _ _ _ _ _ _ F3 Hr3) as (r2 & Hr2 & R23).
    destruct (@Forall2_In_r _ _ _ _ _ _ R23 Hp3) as (p2 & Hp2 & [E2 S2]).
    cbn [fst snd] in E3, S3. rewrite <- E3 in S3.
    rewrite <- E2, <- E3 in S2.
    destruct HQ as [[M HQ]|[M HQ]].
    + rewrite M in S2. apply Ok_inj in S2.
      assert (M' : mem name seat_cols = false).
      { apply mem_In in M. revert M. clear. vm_compute.
        intuition (subst; reflexivity). }
      rewrite M' in S3. rewrite S3, <- S2. apply HQ.
    + assert (M' : mem name CUTOFF_COLUMNS = false).
      { apply mem_In in M. revert M. clear. vm_compute.
        intuition (subst; reflexivity). }
      rewrite M' in S2. rewrite M in S3. rewrite S2 in S3.
      eapply HQ. exact S3.
Qed.

Lemma to_numeric_num_or_null c : num_or_null (to_numeric c) = true.
Proof.
  destruct c as [s| |]; simpl; try reflexivity.
  destruct (parse_numeric s); reflexivity.
Qed.

Lemma astype_Int64_int c c' : astype_Int64 c = Ok c' -> int_or_null c' = true.
Proof.
  destruct c as [s|q|]; simpl; try discriminate.
  - destruct (is_integral q) eqn:E; [|discriminate].
    intros H. injection H as <-. exact E.
  - intros H. injection H as <-. reflexivity.
Qed.

Lemma cutoff_col_name_mem c : mem (cutoff_col_name c) CUTOFF_COLUMNS = true.
Proof. destruct c; reflexivity. Qed.

Lemma normalized_cutoffs_numeric raw df :
  process_data raw = Ok df -> raw <> [] -> cutoffs_numeric df.
Proof.
  intros H Hne c.
  destruct (@normalized_column num_or_null raw df (cutoff_col_name c) Hne H)
    as [Hc HF].
  - reflexivity.
  - left. split; [apply cutoff_col_name_mem | apply to_numeric_num_or_null].
  - split; [apply has_column_In; exact Hc | exact HF].
Qed.


(** *** Column order *)

Lemma first_seen_spec l : forall seen,
  NoDup (first_seen seen l)
  /\ forall x, In x (first_seen seen l) <-> In x l /\ ~ In x seen.
Proof.
  induction l as [|a l IH]; intros seen; simpl.
  - split; [constructor|]. intros x. tauto.
  - destruct (mem a seen) eqn:M.
    + destruct (IH seen) as [ND K]. split; [exact ND|].
      intros x. rewrite K. apply mem_In in M.
      split; [tauto|]. intros [[<-|H] N]; [contradiction | tauto].
    + destruct (IH (a :: seen)) as [ND K]. apply mem_false in M. split.
      * constructor; [|exact ND]. rewrite K. simpl. tauto.
      * intros x. simpl. rewrite K. simpl.
        destruct (string_dec a x) as [->|N]; tauto.
Qed.

Lemma NoDup_all_keys raw : NoDup (all_keys raw).
Proof. apply first_seen_spec. Qed.

Lemma filter_id {A : Type} (f : A -> bool) l :
  (forall x, In x l -> f x = true) -> filter f l = l.
Proof.
  induction l as [|a l IH]; simpl; intros H; [reflexivity|].
  rewrite H by auto. rewrite IH; auto.
Qed.

Lemma filter_none {A : Type} (f : A -> bool) l :
  (forall x, In x l -> f x = false) -> filter f l = [].
Proof.
  induction l as [|a l IH]; simpl; intros H; [reflexivity|].
  rewrite H by auto. apply IH. auto.
Qed.

Lemma fold_ensure_columns names : forall df,
  NoDup names ->
  columns (fold_left ensure_column names df)
  = columns df ++ filter (fun n => negb (has_column df n)) names.
Proof.
  induction names as [|n ns IH]; intros df ND; simpl.
  - rewrite app_nil_r. reflexivity.
  - inversion ND as [|? ? Hn ND']; subst. rewrite IH by exact ND'.
    unfold ensure_column. destruct (has_column df n) eqn:E; simpl.
    + reflexivity.
    + rewrite <- app_assoc. simpl. f_equal. f_equal.
      apply filter_ext_in. intros x Hx. unfold has_column. cbn [columns].
      rewrite existsb_app. simpl. rewrite orb_false_r.
      destruct (String.eqb_spec x n) as [->|N]; [contradiction|].
      rewrite orb_false_r. reflexivity.
Qed.

Lemma filter_eqb_single x l :
  NoDup l -> In x l -> filter (String.eqb x) l = [x].
Proof.
  induction l as [|a l IH]; intros ND Hin; [destruct Hin|].
  inversion ND as [|? ? Ha ND']; subst. simpl.
  destruct (String.eqb_spec x a) as [->|N].
  - f_equal. apply filter_none. intros y Hy.
    apply String.eqb_neq. intros ->. contradiction.
  - apply IH; [exact ND'|]. destruct Hin; [congruence | assumption].
Qed.

Lemma flat_map_single cols labels :
  NoDup cols -> (forall l, In l labels -> In l cols) ->
  flat_map (fun l => filter (String.eqb l) cols) labels = labels.
Proof.
  intros ND. induction labels as [|l ls IH]; intros H; simpl; [reflexivity|].
  rewrite filter_eqb_single by auto using in_eq. simpl. f_equal.
  apply IH. intros x Hx. apply H. right. exact Hx.
Qed.

Lemma NoDup_mapping_values : NoDup mapping_values.
Proof. apply distinct_NoDup. vm_compute. reflexivity. Qed.

Lemma lookup_None {V : Type} k (r : list (string * V)) :
  lookup k r = None <-> ~ In k (map fst r).
Proof.
  induction r as [|[k' v] r IH]; simpl; [tauto|].
  destruct (String.eqb_spec k' k); [|rewrite IH]; intuition congruence.
Qed.

Lemma rename_label_cases k :
  (In k mapping_keys /\ In (rename_label k) mapping_values)
  \/ (~ In k mapping_keys /\ rename_label k = k).
Proof.
  unfold rename_label. destruct (lookup k COLUMN_MAPPING) eqn:E.
  - left. apply lookup_In in E. split.
    + apply (in_map fst) in E. exact E.
    + apply (in_map snd) in E. exact E.
  - right. apply lookup_None in E. auto.
Qed.

Lemma filter_map_rename keys :
  filter (fun l => negb (mem l mapping_values)) (map rename_label keys)
  = filter (fun k => negb (mem k mapping_keys) && negb (mem k mapping_values))
           keys.
Proof.
  induction keys as [|k keys IH]; [reflexivity|]. cbn [map filter].
  destruct (rename_label_cases k) as [[Hk Hr]|[Hk Hr]].
  - apply mem_In in Hk, Hr. rewrite Hk, Hr. cbn [negb andb]. exact IH.
  - apply mem_false in Hk. rewrite Hk, Hr. cbn [negb andb].
    destruct (mem k mapping_values); cbn [negb]; rewrite IH; reflexivity.
Qed.

Lemma maybe_drop_columns df :
  columns (if has_column df "_id" then drop_column "_id" df else df)
  = filter (fun k => negb (String.eqb k "_id")) (columns df).
Proof.
  destruct (has_column df "_id") eqn:E; [reflexivity|].
  symmetry. apply filter_id. intros x Hx. apply negb_true_iff.
  apply String.eqb_neq. intros ->. apply has_column_In in Hx. congruence.
Qed.

Lemma prepared_columns raw :
  columns (prepared raw)
  = renamed_keys raw
    ++ filter (fun n => negb (mem n (renamed_keys raw))) mapping_values.
Proof.
  unfold prepared. rewrite fold_ensure_columns by apply NoDup_mapping_values.
  unfold rename. cbn [columns]. rewrite maybe_drop_columns.
  reflexivity.
Qed.

Lemma reordered_columns df :
  NoDup (columns df) ->
  (forall l, In l mapping_values -> In l (columns df)) ->
  columns (reordered df)
  = mapping_values
    ++ filter (fun l => negb (mem l mapping_values)) (columns df).
Proof.
  intros ND K. unfold reordered, select. cbn [columns].
  assert (E : filter (has_column df) mapping_values = mapping_values).
  { apply filter_id. intros x Hx. apply has_column_In. apply K. exact Hx. }
  rewrite E. apply flat_map_single; [exact ND|].
  intros l Hl. apply in_app_or in Hl. destruct Hl as [Hl|Hl]; [auto|].
  apply filter_In in Hl. tauto.
Qed.

Lemma normalized_columns raw df :
  raw <> [] ->
  process_data raw = Ok df ->
  distinct (renamed_keys raw) = true ->
  columns df = mapping_values ++ extra_fields raw.
Proof.
  intros Hne H D.
  destruct (process_data_steps Hne H) as (d3 & d4 & H3 & H4 & ->).
  destruct (prepared_facts raw) as [W2 K2].
  destruct (fold_assign_Ok _ NoDup_CUTOFF_COLUMNS W2 H3) as (W3 & C3 & F3).
  destruct (fold_assign_Ok _ NoDup_seat_cols W3 H4) as (W4 & C4 & F4).
  assert (C : columns d4 = columns (prepared raw))
    by (rewrite C4, C3; reflexivity).
  apply distinct_NoDup in D.
  rewrite reordered_columns.
  - apply (f_equal (app mapping_values)).
    rewrite C, prepared_columns. rewrite filter_app.
    rewrite (@filter_none _ _ (filter _ mapping_values)).
    + rewrite app_nil_r. unfold renamed_keys. rewrite filter_map_rename.
      unfold extra_fields. rewrite filter_filter.
      apply filter_ext. intros k. reflexivity.
    + intros x Hx. apply filter_In in Hx. destruct Hx as [Hx _].
      apply mem_In in Hx. rewrite Hx. reflexivity.
  - rewrite C, prepared_columns. apply NoDup_app.
    + exact D.
    + apply NoDup_filter. apply NoDup_mapping_values.
    + intros x Hx Hy. apply filter_In in Hy. destruct Hy as [_ Hy].
      apply mem_In in Hx. rewrite Hx in Hy. discriminate.
  - intros l Hl. rewrite C. apply K2. exact Hl.
Qed.


(** *** Unmapped fields *)

Lemma lookup_app {V : Type} l (a b : list (string * V)) :
  lookup l (a ++ b)
  = match lookup l a with Some v => Some v | None => lookup l b end.
Proof.
  induction a as [|[k v] a IH]; simpl; [reflexivity|].
  destruct (String.eqb k l); [reflexivity | exact IH].
Qed.

Lemma lookup_fields_of r l l' :
  lookup l (fields_of r l') = if String.eqb l' l then lookup l r else None.
Proof.
  unfold fields_of. induction r as [|[k v] r IH]; simpl.
  - destruct (String.eqb l' l); reflexivity.
  - destruct (String.eqb_spec k l') as [E|N]; simpl.
    + subst k. destruct (String.eqb l' l); [reflexivity | exact IH].
    + rewrite IH. destruct (String.eqb_spec l' l) as [E'|N'];
        [|reflexivity].
      subst l'. destruct (String.eqb_spec k l); [congruence | reflexivity].
Qed.

Lemma lookup_select r l labels :
  lookup l (flat_map (fields_of r) labels)
  = if mem l labels then lookup l r else None.
Proof.
  induction labels as [|l' ls IH]; [reflexivity|].
  cbn [flat_map]. rewrite lookup_app, lookup_fields_of, IH.
  unfold mem. cbn [existsb]. rewrite (String.eqb_sym l l').
  destruct (String.eqb l' l); cbn [orb]; [|reflexivity].
  destruct (lookup l r); [reflexivity|].
  destruct (existsb (String.eqb l) ls); reflexivity.
Qed.

Lemma lookup_converted f names r r' l :
  Forall2 (converted f names) r r' -> mem l names = false ->
  lookup l r' = lookup l r.
Proof.
  intros F M. induction F as [|[k v] [k' v'] r r' [E S] _ IH];
    [reflexivity|].
  cbn [fst snd] in E, S. subst k'. cbn [lookup].
  destruct (String.eqb_spec k l) as [->|N]; [|exact IH].
  rewrite M in S. congruence.
Qed.

Lemma lookup_drop l name (r : record) :
  l <> name ->
  lookup l (filter (fun p => negb (String.eqb (fst p) name)) r) = lookup l r.
Proof.
  intros N. induction r as [|[k v] r IH]; [reflexivity|].
  cbn [filter fst lookup].
  destruct (String.eqb_spec k name) as [->|Nk]; cbn [negb lookup].
  - destruct (String.eqb_spec name l); [congruence | exact IH].
  - rewrite IH. reflexivity.
Qed.

Lemma lookup_rename l (r : record) :
  unmapped l ->
  lookup l (map (fun p => (rename_label (fst p), snd p)) r) = lookup l r.
Proof.
  intros (_ & Hk & Hv). induction r as [|[k v] r IH]; [reflexivity|].
  cbn [map fst snd lookup]. rewrite IH.
  destruct (rename_label_cases k) as [[Kk Kv]|[Kk Kv]].
  - destruct (String.eqb_spec (rename_label k) l) as [E|_];
      [rewrite E in Kv; contradiction|].
    destruct (String.eqb_spec k l); [congruence | reflexivity].
  - rewrite Kv. reflexivity.
Qed.

Lemma lookup_keyed (g : string -> cell) keys l :
  In l keys -> lookup l (map (fun k => (k, g k)) keys) = Some (g l).
Proof.
  induction keys as [|k keys IH]; intros H; [destruct H|].
  cbn [map lookup]. destruct (String.eqb_spec k l) as [->|N];
    [reflexivity|].
  apply IH. destruct H; [contradiction | assumption].
Qed.

Lemma Forall2_map_r {A B : Type} (R : A -> B -> Prop) (g : A -> B) l :
  (forall x, In x l -> R x (g x)) -> Forall2 R l (map g l).
Proof.
  induction l as [|a l IH]; intros H; constructor.
  - apply H. left. reflexivity.
  - apply IH. intros x Hx. apply H. right. exact Hx.
Qed.

Lemma keeps_trans r1 r2 r3 : keeps r1 r2 -> keeps r2 r3 -> keeps r1 r3.
Proof. intros H12 H23 l Hl. rewrite H23, H12; auto. Qed.

Lemma keeps_ensure df name :
  In name mapping_values ->
  Forall2 keeps (rows df) (rows (ensure_column df name)).
Proof.
  intros Hn. unfold ensure_column. destruct (has_column df name).
  - apply Forall2_same. intros r _ l _. reflexivity.
  - cbn [rows]. apply Forall2_map_r. intros r _ l (_ & _ & Hv).
    rewrite lookup_app. destruct (lookup l r); [reflexivity|].
    cbn [lookup]. destruct (String.eqb_spec name l); [congruence|].
    reflexivity.
Qed.

Lemma keeps_fold_ensure names : forall df,
  (forall n, In n names -> In n mapping_values) ->
  Forall2 keeps (rows df) (rows (fold_left ensure_column names df)).
Proof.
  induction names as [|n ns IH]; intros df H; cbn [fold_left].
  - apply Forall2_same. intros r _ l _. reflexivity.
  - eapply Forall2_compose; [exact keeps_trans| |].
    + apply keeps_ensure. apply H. left. reflexivity.
    + apply IH. intros x Hx. apply H. right. exact Hx.
Qed.

Lemma prepared_rows raw :
  Forall2 (fun rec r => forall l, unmapped l -> In l (all_keys raw) ->
                                  lookup l r = Some (field l rec))
          raw (rows (prepared raw)).
Proof.
  unfold prepared.
  set (df0 := frame_of_records raw).
  set (df1 := if has_column df0 "_id" then drop_column "_id" df0 else df0).
  assert (F0 : Forall2 (fun rec r => forall l, In l (all_keys raw) ->
                          lookup l r = Some (field l rec)) raw (rows df0)).
  { unfold df0, frame_of_records. cbn [rows]. apply Forall2_map_r.
    intros rec _ l Hl. apply (lookup_keyed (fun k => field k rec)). exact Hl. }
  assert (F1 : Forall2 keeps (rows df0) (rows df1)).
  { unfold df1. destruct (has_column df0 "_id").
    - unfold drop_column. cbn [rows]. apply Forall2_map_r.
      intros r _ l (Hid & _). apply lookup_drop. exact Hid.
    - apply Forall2_same. intros r _ l _. reflexivity. }
  assert (F2 : Forall2 keeps (rows df1) (rows (rename df1))).
  { unfold rename. cbn [rows]. apply Forall2_map_r.
    intros r _ l Hl. apply lookup_rename. exact Hl. }
  assert (F3 : Forall2 keeps (rows (rename df1))
                 (rows (fold_left ensure_column mapping_values (rename df1)))).
  { apply keeps_fold_ensure. auto. }
  pose proof (@Forall2_compose _ keeps keeps keeps _ _ _ keeps_trans F1
                (@Forall2_compose _ keeps keeps keeps _ _ _ keeps_trans
                   F2 F3)) as F.
  eapply (@Forall2_compose record _ keeps _ raw (rows df0)); [|exact F0|exact F].
  intros rec r0 r3 H0 H3 l Hl Hk. rewrite (H3 l Hl). apply H0. exact Hk.
Qed.

Lemma keeps_converted f names r r' :
  (forall n, In n names -> In n mapping_values) ->
  Forall2 (converted f names) r r' -> keeps r r'.
Proof.
  intros Hn F l (_ & _ & Hv). eapply lookup_converted; [exact F|].
  apply mem_false. intros H. apply Hv. apply Hn. exact H.
Qed.

Lemma keeps_reordered df :
  well_formed df -> Forall2 keeps (rows df) (rows (reordered df)).
Proof.
  intros W. unfold reordered, select. cbn [rows]. apply Forall2_map_r.
  intros r Hr l (_ & _ & Hv). rewrite lookup_select.
  destruct (mem l _) eqn:M; [reflexivity|].
  symmetry. apply lookup_None. unfold well_formed in W.
  rewrite Forall_forall in W. rewrite (W r Hr). intros Hc.
  apply mem_false in M. apply M. apply in_or_app. right.
  apply filter_In. split; [exact Hc|]. apply negb_true_iff.
  apply mem_false. intros Ho. apply filter_In in Ho. tauto.
Qed.

Lemma seat_cols_mapped n : In n seat_cols -> In n mapping_values.
Proof. unfold seat_cols. intros H. apply filter_In in H. tauto. Qed.

Lemma CUTOFF_COLUMNS_mapped n : In n CUTOFF_COLUMNS -> In n mapping_values.
Proof.
  intros H. apply mem_In. unfold CUTOFF_COLUMNS in H. cbn [In] in H.
  repeat (destruct H as [<-|H]; [reflexivity|]). destruct H.
Qed.

Lemma normalized_rows raw df :
  process_data raw = Ok df ->
  Forall2 (fun rec r => forall l, In l (extra_fields raw) ->
                                  lookup l r = Some (field l rec))
          raw (rows df).
Proof.
  intros H. destruct raw as [|rec0 raw0].
  - apply Ok_inj in H. subst df. constructor.
  - set (raw := rec0 :: raw0) in *.
    assert (Hne : raw <> []) by discriminate.
    destruct (process_data_steps Hne H) as (d3 & d4 & H3 & H4 & ->).
    destruct (prepared_facts raw) as [W2 K2].
    destruct (fold_assign_Ok _ NoDup_CUTOFF_COLUMNS W2 H3) as (W3 & C3 & F3).
    destruct (fold_assign_Ok _ NoDup_seat_cols W3 H4) as (W4 & C4 & F4).
    assert (K3 : Forall2 keeps (rows (prepared raw)) (rows d3)).
    { eapply Forall2_impl; [|exact F3]. intros a b.
      apply keeps_converted. exact CUTOFF_COLUMNS_mapped. }
    assert (K4 : Forall2 keeps (rows d3) (rows d4)).
    { eapply Forall2_impl; [|exact F4]. intros a b.
      apply keeps_converted. exact seat_cols_mapped. }
    pose proof (@Forall2_compose _ keeps keeps keeps _ _ _ keeps_trans K3
                  (@Forall2_compose _ keeps keeps keeps _ _ _ keeps_trans
                     K4 (keeps_reordered W4))) as K.
    pose proof (prepared_rows raw) as F0.
    eapply (@Forall2_compose record _ keeps _ raw (rows (prepared raw)));
      [|exact F0|exact K].
    intros rec r2 rf H0 H2 l Hl.
    unfold extra_fields in Hl. apply filter_In in Hl.
    destruct Hl as [Hk Hl]. apply andb_prop in Hl. destruct Hl as [Hid Hl].
    apply andb_prop in Hl. destruct Hl as [Hmk Hmv].
    apply negb_true_iff in Hid, Hmk, Hmv.
    apply String.eqb_neq in Hid. apply mem_false in Hmk, Hmv.
    assert (U : unmapped l) by (repeat split; assumption).
    rewrite (H2 l U). apply H0; assumption.
Qed.

End NormalizerFacts.

(** ** Lists of positions *)

Lemma map_nth_seq {A : Type} (l : list A) (d : A) :
  map (fun i => nth i l d) (seq 0 (List.length l)) = l.
Proof.
  apply (nth_ext _ _ d d).
  - rewrite length_map, length_seq. reflexivity.
  - intros n Hn. rewrite length_map, length_seq in Hn.
    rewrite (nth_indep _ d (nth 0 l d))
      by (rewrite length_map, length_seq; exact Hn).
    rewrite (map_nth (fun i => nth i l d) (seq 0 (List.length l)) 0 n).
    rewrite seq_nth by exact Hn. reflexivity.
Qed.

Lemma SS_impl_in {A : Type} (R R' : A -> A -> Prop) l :
  (forall a b, In a l -> In b l -> R a b -> R' a b) ->
  StronglySorted R l -> StronglySorted R' l.
Proof.
  intros H S. induction S as [|a l S IH F]; constructor.
  - apply IH. intros x y Hx Hy. apply H; right; assumption.
  - rewrite Forall_forall in *. intros x Hx.
    apply H; [left; reflexivity | right; exact Hx | apply F; exact Hx].
Qed.

Lemma SS_map {A B : Type} (R : B -> B -> Prop) (g : A -> B) l :
  StronglySorted (fun a b => R (g a) (g b)) l -> StronglySorted R (map g l).
Proof.
  induction 1 as [|a l S IH F]; simpl; constructor; [exact IH|].
  rewrite Forall_forall in *. intros y Hy. apply in_map_iff in Hy.
  destruct Hy as (x & <- & Hx). apply F. exact Hx.
Qed.

Lemma SS_snoc {A : Type} (R : A -> A -> Prop) l x :
  StronglySorted R l -> Forall (fun a => R a x) l ->
  StronglySorted R (l ++ [x]).
Proof.
  induction 1 as [|a l S IH F]; intros Hx; simpl.
  - constructor; constructor.
  - inversion Hx; subst. constructor; [apply IH; assumption|].
    apply Forall_app. split; [exact F|]. constructor; [assumption|constructor].
Qed.

Lemma SS_rev {A : Type} (R : A -> A -> Prop) l :
  StronglySorted R l -> StronglySorted (fun a b => R b a) (rev l).
Proof.
  induction 1 as [|a l S IH F]; simpl; [constructor|].
  apply SS_snoc; [exact IH|]. apply Forall_rev. exact F.
Qed.

Lemma SS_filter {A : Type} (R : A -> A -> Prop) (f : A -> bool) l :
  StronglySorted R l -> StronglySorted R (filter f l).
Proof.
  induction 1 as [|a l S IH F]; simpl; [constructor|].
  destruct (f a); [|exact IH]. constructor; [exact IH|].
  apply Forall_filter_keep. exact F.
Qed.

Lemma SS_seq s n : StronglySorted lt (seq s n).
Proof.
  revert s. induction n as [|n IH]; intros s; simpl; constructor.
  - apply IH.
  - apply Forall_forall. intros x Hx. apply in_seq in Hx. lia.
Qed.

Lemma SS_lt_nth l : StronglySorted lt l ->
  forall a b, a < b -> b < List.length l -> nth a l 0 < nth b l 0.
Proof.
  induction 1 as [|x l S IH F]; intros a b Hab Hb; simpl in Hb; [lia|].
  destruct b as [|b]; [lia|]. destruct a as [|a]; simpl.
  - rewrite Forall_forall in F. apply F. apply nth_In. lia.
  - apply IH; lia.
Qed.



Lemma filter_split_perm {A : Type} (f : A -> bool) l :
  Permutation (filter f l ++ filter (fun x => negb (f x)) l) l.
Proof.
  induction l as [|a l IH]; simpl; [constructor|].
  destruct (f a); simpl.
  - constructor. exact IH.
  - apply Permutation_sym. apply Permutation_cons_app.
    apply Permutation_sym. exact IH.
Qed.

(** ** Sorting *)

Lemma valued_keys items :
  map (key_at items) (valued_positions items) = filter notna items.
Proof.
  unfold valued_positions.
  rewrite <- (filter_map_swap notna (key_at items)).
  unfold key_at. rewrite map_nth_seq. reflexivity.
Qed.

Lemma SS_valued_positions items : StronglySorted lt (valued_positions items).
Proof. apply SS_filter. apply SS_seq. Qed.

Lemma forallb_rev {A : Type} (f : A -> bool) l :
  forallb f (rev l) = forallb f l.
Proof.
  destruct (forallb f l) eqn:E.
  - apply forallb_forall. intros x Hx. apply in_rev in Hx.
    rewrite forallb_forall in E. auto.
  - destruct (forallb f (rev l)) eqn:E'; [|reflexivity].
    rewrite <- E. symmetry. apply forallb_forall. intros x Hx.
    rewrite forallb_forall in E'. apply E'. apply in_rev in Hx. exact Hx.
Qed.

Lemma comparable_rev keys : comparable (rev keys) = comparable keys.
Proof. unfold comparable. rewrite !forallb_rev. reflexivity. Qed.

Lemma nth_keys items pos a :
  a < List.length pos ->
  nth a (map (key_at items) pos) Null = key_at items (nth a pos 0).
Proof.
  intros H.
  rewrite (nth_indep _ Null (key_at items 0)) by (rewrite length_map; exact H).
  apply map_nth.
Qed.

Section SortingFacts.

Context {P : Pandas}.

(** The positions [nargsort] sets before or after the nulls. *)
Lemma arranged items pos keys order :
  map (key_at items) pos = keys ->
  Permutation order (seq 0 (List.length keys)) ->
  StronglySorted
    (fun a b => cell_le (nth a keys Null) (nth b keys Null) = true) order ->
  let part := map (fun j => nth j pos 0) order in
  Permutation part pos
  /\ StronglySorted
       (fun i j => cell_le (key_at items i) (key_at items j) = true) part.
Proof.
  intros Hk Hp Hs part.
  assert (Hl : List.length pos = List.length keys)
    by (rewrite <- Hk, length_map; reflexivity).
  assert (Hin : forall a, In a order -> a < List.length pos).
  { intros a Ha. eapply Permutation_in in Ha; [|exact Hp].
    apply in_seq in Ha. lia. }
  split.
  - unfold part.
    eapply Permutation_trans;
      [apply Permutation_map; exact Hp|].
    rewrite <- Hl. rewrite map_nth_seq. apply Permutation_refl.
  - unfold part. apply SS_map. eapply SS_impl_in; [|exact Hs].
    intros a b Ha Hb H. cbv beta in H. rewrite <- Hk in H.
    rewrite !nth_keys in H by auto. exact H.
Qed.

Lemma nargsort_spec items ascending na_last :
  sorts P ->
  comparable (filter notna items) = true ->
  exists part,
    nargsort items ascending na_last
    = Ok (if na_last then part ++ null_positions items
          else null_positions items ++ part)
    /\ Permutation part (valued_positions items)
    /\ StronglySorted (ordered_keys items ascending) part
    /\ (stable P -> StronglySorted (ties_in_order items) part).
Proof.
  intros HS Hc. unfold nargsort.
  fold (key_at items). 
  change (filter (fun i => notna (nth i items Null))
                 (seq 0 (List.length items)))
    with (valued_positions items).
  change (filter (fun i => isna (nth i items Null))
                 (seq 0 (List.length items)))
    with (null_positions items).
  pose proof (valued_keys items) as Hk.
  pose proof (SS_valued_positions items) as Hpos.
  destruct ascending.
  - destruct (HS _ Hc) as (order & Ho & Hp & Hs).
    rewrite Ho. cbn [bind].
    destruct (@arranged items _ _ order Hk Hp Hs) as [Pp Ps].
    eexists. split; [reflexivity|]. split; [exact Pp|]. split.
    + exact Ps.
    + intros St. specialize (St _ _ Ho).
      apply SS_map. eapply SS_impl_in; [|exact St].
      intros a b Ha Hb H. cbv beta in H. intros L1 L2.
      assert (Hl : List.length (valued_positions items)
                   = List.length (filter notna items))
        by (rewrite <- Hk, length_map; reflexivity).
      assert (Hin : forall x, In x order ->
                              x < List.length (valued_positions items)).
      { intros x Hx. eapply Permutation_in in Hx; [|exact Hp].
        apply in_seq in Hx. lia. }
      apply SS_lt_nth; auto. apply H.
      rewrite <- Hk. rewrite !nth_keys by auto. exact L2.
  - rewrite <- comparable_rev in Hc.
    destruct (HS _ Hc) as (order & Ho & Hp & Hs).
    rewrite Ho. cbn [bind].
    assert (Hk' : map (key_at items) (rev (valued_positions items))
                  = rev (filter notna items))
      by (rewrite map_rev, Hk; reflexivity).
    destruct (@arranged items _ _ order Hk' Hp Hs) as [Pp Ps].
    eexists. split; [reflexivity|]. split; [|split].
    + eapply Permutation_trans;
        [apply Permutation_sym; apply Permutation_rev|].
      eapply Permutation_trans; [exact Pp|].
      apply Permutation_sym. apply Permutation_rev.
    + apply SS_rev in Ps. exact Ps.
    + intros St. specialize (St _ _ Ho).
      assert (Hl : List.length (valued_positions items)
                   = List.length (rev (filter notna items)))
        by (rewrite <- Hk', length_map, length_rev; reflexivity).
      assert (Hin : forall x, In x order ->
                              x < List.length (valued_positions items)).
      { intros x Hx. eapply Permutation_in in Hx; [|exact Hp].
        apply in_seq in Hx. lia. }
      eapply SS_impl_in;
        [|apply (SS_rev (R := fun u v =>
                   cell_le (key_at items v) (key_at items u) = true ->
                   v < u))].
      * intros i j _ _ H L1 L2. apply H. exact L1.
      * apply SS_map. eapply SS_impl_in; [|exact St].
        intros a b Ha Hb H. cbv beta in H. intros L.
        pose proof (Hin a Ha) as La. pose proof (Hin b Hb) as Lb.
        rewrite !rev_nth by assumption.
        apply SS_lt_nth; [exact Hpos| |lia].
        assert (a < b); [|lia]. apply H.
        rewrite <- Hk'. rewrite !nth_keys by (rewrite length_rev; auto).
        exact L.
Qed.


Lemma key_at_rows c rs i :
  key_at (map (field c) rs) i = field c (row_at rs i).
Proof.
  unfold key_at, row_at. change Null with (field c []). apply map_nth.
Qed.

Lemma filter_take c (p : cell -> bool) rs positions :
  filter (fun r => p (field c r)) (map (row_at rs) positions)
  = map (row_at rs)
      (filter (fun i => p (key_at (map (field c) rs) i)) positions).
Proof.
  rewrite filter_map_swap. f_equal. apply filter_ext. intros i.
  rewrite key_at_rows. reflexivity.
Qed.

Lemma rows_by_position rs :
  map (row_at rs) (seq 0 (List.length rs)) = rs.
Proof. apply map_nth_seq. Qed.

Lemma null_rows c rs :
  map (row_at rs) (null_positions (map (field c) rs))
  = filter (fun r => isna (field c r)) rs.
Proof.
  unfold null_positions. rewrite <- filter_take.
  rewrite length_map, rows_by_position. reflexivity.
Qed.

Lemma valued_rows c rs part :
  Permutation part (valued_positions (map (field c) rs)) ->
  Forall (fun r => notna (field c r) = true) (map (row_at rs) part).
Proof.
  intros Hp. apply Forall_forall. intros r Hr. apply in_map_iff in Hr.
  destruct Hr as (i & <- & Hi). eapply Permutation_in in Hi; [|exact Hp].
  unfold valued_positions in Hi. apply filter_In in Hi.
  destruct Hi as [_ Hi]. rewrite key_at_rows in Hi. exact Hi.
Qed.

Lemma positions_perm items part :
  Permutation part (valued_positions items) ->
  Permutation (part ++ null_positions items) (seq 0 (List.length items)).
Proof.
  intros Hp. eapply Permutation_trans;
    [apply Permutation_app_tail; exact Hp|].
  unfold valued_positions, null_positions.
  rewrite (filter_ext (fun i => isna (key_at items i))
             (fun i => negb (notna (key_at items i)))).
  - apply filter_split_perm.
  - intros i. unfold notna. rewrite negb_involutive. reflexivity.
Qed.

Lemma take_perm df c part (last : bool) :
  Permutation part (valued_positions (map (field c) (rows df))) ->
  Permutation (rows df)
    (rows (take df (if last
                    then part ++ null_positions (map (field c) (rows df))
                    else null_positions (map (field c) (rows df)) ++ part))).
Proof.
  intros Hp. unfold take. cbn [rows]. fold (row_at (rows df)).
  apply Permutation_sym.
  apply positions_perm in Hp. rewrite length_map in Hp.
  eapply Permutation_trans;
    [apply Permutation_map
     | rewrite rows_by_position; apply Permutation_refl].
  destruct last; [exact Hp|].
  eapply Permutation_trans; [apply Permutation_app_comm | exact Hp].
Qed.

Lemma sort_values_spec df c ascending na_last :
  sorts P ->
  has_column df c = true ->
  NoDup (columns df) ->
  comparable (filter notna (map (field c) (rows df))) = true ->
  let items := map (field c) (rows df) in
  exists part,
    sort_values df c ascending na_last
    = Ok (take df (if na_last then part ++ null_positions items
                   else null_positions items ++ part))
    /\ Permutation part (valued_positions items)
    /\ StronglySorted (ordered_keys items ascending) part
    /\ (stable P -> StronglySorted (ties_in_order items) part).
Proof.
  intros HS Hc ND Hk items. unfold sort_values.
  assert (E : (1 <? count_occ string_dec (columns df) c) = false).
  { apply Nat.ltb_ge. apply (proj1 (NoDup_count_occ string_dec _) ND). }
  rewrite E. rewrite (getitem_has _ _ Hc). cbn [bind].
  destruct (@nargsort_spec (map (field c) (rows df)) ascending na_last HS Hk)
    as (part & Hn & Hp & Hs & Ht).
  exists part. rewrite Hn. cbn [bind]. auto.
Qed.

Lemma comparable_kind c rs :
  forallb (fun r => column_kind c (field c r)) rs = true ->
  comparable (filter notna (map (field c) rs)) = true.
Proof.
  intros H. rewrite forallb_forall in H. unfold comparable.
  unfold column_kind in H.
  assert (G : forall (kind : cell -> bool),
             (forall r, In r rs -> kind (field c r) = true) ->
             (forall x, kind x = true -> notna x = true -> is_num x = true)
             \/ (forall x, kind x = true -> notna x = true -> is_str x = true)
             ->
             forallb is_num (filter notna (map (field c) rs))
             || forallb is_str (filter notna (map (field c) rs)) = true).
  { intros kind Hkind [Hn|Hs]; apply orb_true_iff; [left|right];
      apply forallb_forall; intros x Hx; apply filter_In in Hx;
      destruct Hx as [Hx Hv]; apply in_map_iff in Hx;
      destruct Hx as (r & <- & Hr); auto. }
  destruct (mem c CUTOFF_COLUMNS); [|destruct (mem c seat_cols)].
  - apply (G num_or_null H). left. intros [s|q|] H1 H2; simpl in *;
      try reflexivity; discriminate.
  - apply (G int_or_null H). left. intros [s|q|] H1 H2; simpl in *;
      try reflexivity; discriminate.
  - apply (G str_or_null H). right. intros [s|q|] H1 H2; simpl in *;
      try reflexivity; discriminate.
Qed.

Lemma canonical_facts df :
  canonical df = true ->
  NoDup (columns df)
  /\ well_formed df
  /\ forall c, In c mapping_values ->
       has_column df c = true
       /\ forallb (fun r => column_kind c (field c r)) (rows df) = true.
Proof.
  unfold canonical. intros H.
  apply andb_prop in H. destruct H as [H H3].
  apply andb_prop in H. destruct H as [H1 H2].
  split; [apply distinct_NoDup; exact H1|]. split.
  - unfold well_formed. apply Forall_forall. intros r Hr.
    rewrite forallb_forall in H2. specialize (H2 r Hr).
    clear -H2. revert H2. generalize (columns df). generalize (map fst r).
    intros l1. induction l1 as [|a l1 IH]; intros [|b l2] H;
      try discriminate; [reflexivity|].
    simpl in H. apply andb_prop in H. destruct H as [E H].
    apply String.eqb_eq in E. subst. f_equal. apply IH. exact H.
  - intros c Hc. rewrite forallb_forall in H3. specialize (H3 c Hc).
    apply andb_prop in H3. exact H3.
Qed.

Lemma resolve_mapped s c :
  resolve_sort_column s = Some c -> In c mapping_values.
Proof.
  unfold resolve_sort_column.
  destruct (mem s mapping_values) eqn:M.
  - intros H. injection H as <-. apply mem_In. exact M.
  - destruct (find _ COLUMN_MAPPING) as [kv|] eqn:F.
    + intros H. injection H as <-. apply find_some in F.
      destruct F as [F _]. apply (in_map snd) in F. exact F.
    + destruct (mem s mapping_keys); [|discriminate].
      intros H. apply lookup_In in H. apply (in_map snd) in H. exact H.
Qed.

(** What [apply_sorting] does on a table once the column is resolved. *)
Lemma apply_sorting_spec df args s c :
  sorts P ->
  canonical df = true ->
  rows df <> [] ->
  sort_by args = Some s -> s <> "" ->
  resolve_sort_column s = Some c ->
  let items := map (field c) (rows df) in
  let ascending := match sort_order args with asc => true | desc => false end in
  exists part,
    apply_sorting df args
    = (take df (if nulls_last c (sort_order args)
                then part ++ null_positions items
                else null_positions items ++ part), [])
    /\ Permutation part (valued_positions items)
    /\ StronglySorted (ordered_keys items ascending) part
    /\ (stable P -> StronglySorted (ties_in_order items) part).
Proof.
  intros HS Hcan Hrows Hs Hne Hres items ascending.
  destruct (canonical_facts _ Hcan) as (ND & W & K).
  destruct (K c (resolve_mapped _ Hres)) as [Hc Hkind].
  destruct (@sort_values_spec df c ascending (nulls_last c (sort_order args))
              HS Hc ND (comparable_kind _ _ Hkind))
    as (part & Hsv & Hp & Hso & Hst).
  exists part. split; [|auto].
  unfold apply_sorting.
  assert (E : empty df = false).
  { unfold empty. destruct (rows df); [contradiction|].
    apply has_column_In in Hc. destruct (columns df); [destruct Hc|].
    reflexivity. }
  rewrite E, Hs. destruct s as [|a s]; [contradiction|].
  cbn [truthy negb orb]. rewrite Hres, Hc. cbn [negb].
  unfold nulls_last in Hsv. unfold ascending in Hsv.
  destruct (sort_order args); rewrite Hsv; reflexivity.
Qed.


(** *** Rows of equal key *)







End SortingFacts.

(** ** The insertion sorts meet the sorting contract *)

Lemma string_leb_trans s t u :
  String.leb s t = true -> String.leb t u = true -> String.leb s u = true.
Proof.
  unfold String.leb. intros H1 H2.
  destruct (String.compare s t) eqn:E1; try discriminate;
    destruct (String.compare t u) eqn:E2; try discriminate.
  - apply String.compare_eq_iff in E1, E2. subst.
    destruct (String.compare u u) eqn:E; try reflexivity.
    pose proof (String.compare_antisym u u) as A. rewrite E in A.
    discriminate.
  - apply String.compare_eq_iff in E1. subst. rewrite E2. reflexivity.
  - apply String.compare_eq_iff in E2. subst. rewrite E1. reflexivity.
  - apply String_as_OT.cmp_lt in E1, E2.
    pose proof (@String_as_OT.lt_trans _ _ _ E1 E2) as L.
    apply String_as_OT.cmp_lt in L. unfold String_as_OT.cmp in L.
    rewrite L. reflexivity.
Qed.

Lemma cell_le_trans a b c :
  cell_le a b = true -> cell_le b c = true -> cell_le a c = true.
Proof.
  destruct a as [s|p|], b as [t|q|], c as [u|r|]; simpl;
    try discriminate; intros H1 H2.
  - eapply string_leb_trans; eassumption.
  - apply Qle_bool_iff in H1, H2. apply Qle_bool_iff.
    eapply Qle_trans; eassumption.
Qed.

Lemma cell_le_total keys a b :
  comparable keys = true -> In a keys -> In b keys ->
  cell_le a b = true \/ cell_le b a = true.
Proof.
  unfold comparable. intros H Ha Hb. apply orb_true_iff in H.
  destruct H as [H|H]; rewrite forallb_forall in H;
    pose proof (H a Ha) as Ka; pose proof (H b Hb) as Kb;
    destruct a as [s|p|], b as [t|q|]; try discriminate; simpl.
  - destruct (Qlt_le_dec p q) as [L|L].
    + left. apply Qle_bool_iff. apply Qlt_le_weak. exact L.
    + right. apply Qle_bool_iff. exact L.
  - apply String.leb_total.
Qed.

Section Insertion.

Variable A : Type.
Variable before : A -> A -> bool.

Lemma insert_by_perm x l : Permutation (insert_by before x l) (x :: l).
Proof.
  induction l as [|y l IH]; simpl; [apply Permutation_refl|].
  destruct (before x y); [apply Permutation_refl|].
  eapply Permutation_trans; [apply perm_skip; exact IH | apply perm_swap].
Qed.

Lemma isort_perm l : Permutation (isort before l) l.
Proof.
  induction l as [|x l IH]; simpl; [constructor|].
  eapply Permutation_trans; [apply insert_by_perm|].
  constructor. exact IH.
Qed.

Lemma insert_by_Forall (Q : A -> Prop) x l :
  Q x -> Forall Q l -> Forall Q (insert_by before x l).
Proof.
  intros Hx Hl. eapply Permutation_Forall.
  - apply Permutation_sym. apply insert_by_perm.
  - constructor; assumption.
Qed.

(** Insertion keeps a list sorted for [R] when [before] decides [R] on the
    elements at hand and [R] is transitive. *)
Lemma insert_by_sorted (R : A -> A -> Prop) (ok : A -> Prop) x l :
  (forall a b, ok a -> ok b -> before a b = true -> R a b) ->
  (forall a b, ok a -> ok b -> before a b = false -> R b a) ->
  (forall a b c, R a b -> R b c -> R a c) ->
  ok x -> Forall ok l ->
  StronglySorted R l -> StronglySorted R (insert_by before x l).
Proof.
  intros Ht Hf Htr Hx Hl S. induction S as [|y l S IH F]; simpl.
  - constructor; constructor.
  - inversion Hl as [|? ? Hy Hl']; subst.
    destruct (before x y) eqn:E.
    + constructor; [constructor; assumption|].
      assert (Rxy : R x y) by (apply Ht; assumption).
      constructor; [exact Rxy|].
      eapply Forall_impl; [|exact F]. intros z Rz. eapply Htr; eassumption.
    + constructor; [apply IH; assumption|].
      apply insert_by_Forall; [|exact F]. apply Hf; assumption.
Qed.

Lemma isort_sorted (R : A -> A -> Prop) (ok : A -> Prop) l :
  (forall a b, ok a -> ok b -> before a b = true -> R a b) ->
  (forall a b, ok a -> ok b -> before a b = false -> R b a) ->
  (forall a b c, R a b -> R b c -> R a c) ->
  Forall ok l -> StronglySorted R (isort before l).
Proof.
  intros Ht Hf Htr Hl. induction Hl as [|x l Hx Hl IH]; simpl.
  - constructor.
  - eapply insert_by_sorted; eauto.
    eapply Permutation_Forall;
      [apply Permutation_sym; apply isort_perm | exact Hl].
Qed.


End Insertion.

Lemma in_combine_seq keys : forall s i k,
  In (i, k) (combine (seq s (List.length keys)) keys) ->
  s <= i /\ nth (i - s) keys Null = k.
Proof.
  induction keys as [|k0 keys IH]; intros s i k H; [destruct H|].
  simpl in H. destruct H as [H|H].
  - injection H as <- <-. rewrite Nat.sub_diag. split; [lia | reflexivity].
  - apply IH in H. destruct H as [L E]. split; [lia|].
    replace (i - s) with (S (i - S s)) by lia. exact E.
Qed.

Lemma map_fst_combine_seq (keys : list cell) s :
  map fst (combine (seq s (List.length keys)) keys)
  = seq s (List.length keys).
Proof.
  revert s. induction keys as [|k keys IH]; intros s; simpl; [reflexivity|].
  rewrite IH. reflexivity.
Qed.


(** Any insertion sort of the numbered keys whose test agrees with the key
    order sorts. *)
Lemma insertion_sorts (before : nat * cell -> nat * cell -> bool) keys :
  (forall p q, before p q = true -> cell_le (snd q) (snd p) = false
                                    \/ cell_le (snd p) (snd q) = true) ->
  (forall p q, before p q = false -> cell_le (snd p) (snd q) = false
                                     \/ cell_le (snd q) (snd p) = true) ->
  comparable keys = true ->
  let order :=
    map fst (isort before (combine (seq 0 (List.length keys)) keys)) in
  Permutation order (seq 0 (List.length keys))
  /\ StronglySorted
       (fun a b => cell_le (nth a keys Null) (nth b keys Null) = true) order.
Proof.
  intros Ht Hf Hc order. unfold order. split.
  - rewrite <- (map_fst_combine_seq keys 0) at 2.
    apply Permutation_map. apply isort_perm.
  - apply SS_map.
    set (ok := fun p : nat * cell =>
                 In (snd p) keys /\ nth (fst p) keys Null = snd p).
    assert (Hok : Forall ok (combine (seq 0 (List.length keys)) keys)).
    { apply Forall_forall. intros [i k] H. unfold ok. simpl. split.
      - eapply in_combine_r. exact H.
      - apply in_combine_seq in H. destruct H as [_ H].
        rewrite Nat.sub_0_r in H. exact H. }
    eapply SS_impl_in;
      [|apply (@isort_sorted _ before
                 (fun p q => cell_le (snd p) (snd q) = true) ok)].
    + intros p q Hp Hq H.
      assert (Op : ok p).
      { eapply Permutation_Forall in Hok;
          [|apply Permutation_sym; apply isort_perm].
        rewrite Forall_forall in Hok. apply Hok. exact Hp. }
      assert (Oq : ok q).
      { eapply Permutation_Forall in Hok;
          [|apply Permutation_sym; apply isort_perm].
        rewrite Forall_forall in Hok. apply Hok. exact Hq. }
      destruct Op as [_ Ep], Oq as [_ Eq]. rewrite Ep, Eq. exact H.
    + intros p q [Ip _] [Iq _] H. destruct (Ht p q H) as [N|L]; [|exact L].
      destruct (@cell_le_total _ _ _ Hc Ip Iq) as [T|T]; congruence.
    + intros p q [Ip _] [Iq _] H. destruct (Hf p q H) as [N|L]; [|exact L].
      destruct (@cell_le_total _ _ _ Hc Ip Iq) as [T|T]; congruence.
    + intros p q r. apply cell_le_trans.
    + exact Hok.
Qed.

Lemma reference_sorts : sorts reference.
Proof.
  intros keys Hc. simpl. unfold insertion_argsort. rewrite Hc.
  eexists. split; [reflexivity|].
  apply insertion_sorts; [| |exact Hc].
  - intros p q H. right. exact H.
  - intros p q H. left. exact H.
Qed.



(** * The claims *)

Section FilterClaims.

Context {P : Pandas}.

Lemma canonical_filterable df : canonical df = true -> filterable df.
Proof.
  intros H. destruct (canonical_facts _ H) as (_ & _ & K). split.
  - intros name Hn.
    assert (Hm : In name mapping_values /\ column_kind name = str_or_null).
    { simpl in Hn. repeat (destruct Hn as [<-|Hn]; [split; [|reflexivity];
        apply mem_In; reflexivity|]). destruct Hn. }
    destruct Hm as [Hm Hk]. destruct (K name Hm) as [Hc HF].
    split; [exact Hc|]. rewrite Hk in HF.
    apply Forall_forall. rewrite forallb_forall in HF. exact HF.
  - intros c.
    assert (Hm : In (cutoff_col_name c) mapping_values
                 /\ column_kind (cutoff_col_name c) = num_or_null).
    { destruct c; (split; [apply mem_In|]; reflexivity). }
    destruct Hm as [Hm Hk]. destruct (K _ Hm) as [Hc HF].
    split; [exact Hc|]. rewrite Hk in HF.
    apply Forall_forall. rewrite forallb_forall in HF. exact HF.
Qed.



Lemma within_bounds_iff lo hi c :
  lo <> None \/ hi <> None ->
  (within_bounds lo hi c = true
   <-> exists v, c = Num v
                 /\ (forall l, lo = Some l -> (l <= v)%Q)
                 /\ (forall h, hi = Some h -> (v <= h)%Q)).
Proof.
  intros Hb. split.
  - intros H. destruct c as [s|v|].
    + destruct lo, hi; simpl in H; try discriminate.
      destruct Hb; congruence.
    + exists v. split; [reflexivity|].
      destruct lo as [l|], hi as [h|]; simpl in H;
        try (apply andb_prop in H; destruct H as [H1 H2]);
        split; intros x E; try discriminate; injection E as <-;
        apply Qle_bool_iff; assumption.
    + destruct lo, hi; simpl in H; try discriminate.
      destruct Hb; congruence.
  - intros (v & -> & Hl & Hh).
    destruct lo as [l|], hi as [h|]; simpl;
      try (destruct Hb; congruence);
      rewrite ?andb_true_r; try apply andb_true_intro; try split;
      apply Qle_bool_iff; auto.
Qed.

(** C1.  On a normalized table, with no string filter set, filtering keeps
    exactly the records that pass, for every community category, the test of
    that category's cutoff against its bounds; where a category has a
    minimum or a maximum (or both), a record passes the test if and only if
    its cutoff is a number lying within the inclusive bounds, so a null
    cutoff never matches a bound. *)
Theorem cutoff_filter_inclusive_bounds raw df args :
  process_data raw = Ok df ->
  no_string_filter args ->
  apply_filters df args
  = Ok (mkFrame (columns df)
          (filter (fun r => forallb
                     (fun c => within_bounds (min_cutoff args c)
                                 (max_cutoff args c) (cutoff_of c r))
                     communities)
                  (rows df)))
  /\ forall lo hi c,
       lo <> None \/ hi <> None ->
       (within_bounds lo hi c = true
        <-> exists v, c = Num v
                      /\ (forall l, lo = Some l -> (l <= v)%Q)
                      /\ (forall h, hi = Some h -> (v <= h)%Q)).
Proof.
  intros H Hs. split; [|apply within_bounds_iff].
  destruct raw as [|r raw].
  - apply Ok_inj in H. subst df. reflexivity.
  - apply cutoff_filter_spec; [|exact Hs].
    eapply normalized_cutoffs_numeric; [exact H | discriminate].
Qed.



End FilterClaims.

Section SortClaims.

Context {P : Pandas}.

Lemma apply_sorting_no_rows df args :
  rows df = [] -> apply_sorting df args = (df, []).
Proof.
  intros H. unfold apply_sorting, empty. rewrite H. reflexivity.
Qed.

Lemma rows_take df positions :
  rows (take df positions) = map (row_at (rows df)) positions.
Proof. reflexivity. Qed.

(** C2.  Sorting a table of canonical records on a resolved column puts the
    records with a null key together at one end and the others, in key
    order, at the other: the nulls come last in ascending order, first in
    descending order on a cutoff column, and last in descending order on any
    other column. *)
Theorem null_placement_in_sort df args s c :
  sorts P ->
  canonical df = true ->
  sort_by args = Some s -> s <> "" ->
  resolve_sort_column s = Some c ->
  exists valued nulls,
    Forall (fun r => notna (field c r) = true) valued
    /\ Forall (fun r => isna (field c r) = true) nulls
    /\ Permutation (rows df) (valued ++ nulls)
    /\ StronglySorted (rows_ordered c (sort_order args)) valued
    /\ snd (apply_sorting df args) = []
    /\ columns (fst (apply_sorting df args)) = columns df
    /\ (sort_order args = asc ->
        rows (fst (apply_sorting df args)) = valued ++ nulls)
    /\ (sort_order args = desc -> In c CUTOFF_COLUMNS ->
        rows (fst (apply_sorting df args)) = nulls ++ valued)
    /\ (sort_order args = desc -> ~ In c CUTOFF_COLUMNS ->
        rows (fst (apply_sorting df args)) = valued ++ nulls).
Proof.
  intros HS Hcan Hs Hne Hres.
  destruct (rows df) as [|r0 rs] eqn:Hrows.
  { exists [], []. rewrite (apply_sorting_no_rows _ args Hrows).
    cbn [fst snd app]. rewrite Hrows.
    repeat split; constructor. }
  rewrite <- Hrows.
  assert (Hrows' : rows df <> []) by (rewrite Hrows; discriminate).
  clear r0 rs Hrows.
  destruct (@apply_sorting_spec P df args s c HS Hcan Hrows' Hs Hne Hres)
    as (part & Ha & Hp & Hso & _).
  set (items := map (field c) (rows df)) in *.
  exists (map (row_at (rows df)) part),
         (map (row_at (rows df)) (null_positions items)).
  rewrite Ha. cbn [fst snd].
  split; [apply valued_rows; exact Hp|]. split.
  { unfold items. rewrite null_rows. apply Forall_forall. intros r Hr.
    apply filter_In in Hr. tauto. }
  split.
  { rewrite <- map_app. apply (@take_perm df c part true Hp). }
  split.
  { apply SS_map. eapply SS_impl_in; [|exact Hso].
    intros i j _ _ H. unfold ordered_keys, items in H.
    rewrite !key_at_rows in H. unfold rows_ordered.
    destruct (sort_order args); exact H. }
  split; [reflexivity|]. split; [reflexivity|].
  unfold nulls_last. rewrite rows_take. split; [|split].
  - intros ->. destruct (mem c CUTOFF_COLUMNS); apply map_app.
  - intros -> Hc. apply mem_In in Hc. rewrite Hc. apply map_app.
  - intros -> Hc. apply mem_false in Hc. rewrite Hc. apply map_app.
Qed.


Lemma prefix_refl s : String.prefix s s = true.
Proof.
  induction s as [|a s IH]; simpl; [reflexivity|].
  destruct (ascii_dec a a); [exact IH | congruence].
Qed.

Lemma contains_refl s : contains s s = true.
Proof.
  destruct s as [|a s]; [reflexivity|].
  cbn [contains]. rewrite prefix_refl. reflexivity.
Qed.

Lemma find_first {A : Type} (f : A -> bool) front x back :
  Forall (fun y => f y = false) front -> f x = true ->
  find f (front ++ x :: back) = Some x.
Proof.
  induction 1 as [|y front Hy _ IH]; intros Hx; simpl.
  - rewrite Hx. reflexivity.
  - rewrite Hy. apply IH. exact Hx.
Qed.

Lemma find_nothing {A : Type} (f : A -> bool) l :
  Forall (fun y => f y = false) l -> find f l = None.
Proof.
  induction 1 as [|y l Hy _ IH]; simpl; [reflexivity|].
  rewrite Hy. exact IH.
Qed.

Lemma resolve_unmatched s :
  ~ In s mapping_values ->
  Forall (fun kv => partial_match s kv = false) COLUMN_MAPPING ->
  resolve_sort_column s = None.
Proof.
  intros Hv Hn. unfold resolve_sort_column.
  apply mem_false in Hv. rewrite Hv. rewrite find_nothing by exact Hn.
  destruct (mem s mapping_keys) eqn:M; [|reflexivity].
  apply mem_In in M. unfold mapping_keys in M. apply in_map_iff in M.
  destruct M as ([k v] & E & Hin). simpl in E. subst k.
  rewrite Forall_forall in Hn. specialize (Hn _ Hin).
  unfold partial_match in Hn. simpl in Hn. rewrite contains_refl in Hn.
  rewrite orb_true_r in Hn. discriminate.
Qed.

End SortClaims.

Section MainClaims.

Context {P : Pandas}.

Lemma supported_year y table :
  existsb (Z.eqb y) (map fst table) = true
  <-> exists code, year_code y table = Some code.
Proof.
  induction table as [|[k v] table IH]; simpl.
  - split; [discriminate | intros [c H]; discriminate].
  - rewrite (Z.eqb_sym y k). destruct (Z.eqb k y); simpl.
    + split; eauto.
    + exact IH.
Qed.

Lemma unsupported_year y table :
  existsb (Z.eqb y) (map fst table) = false <-> year_code y table = None.
Proof.
  pose proof (supported_year y table) as [H1 H2].
  destruct (existsb (Z.eqb y) (map fst table)),
    (year_code y table) as [code|]; split; intros E; try reflexivity;
    try discriminate.
  - destruct (H1 eq_refl). discriminate.
  - assert (X : false = true) by (apply H2; eauto). discriminate.
Qed.

Lemma main_status env argv :
  fst (main env argv)
  = match parse_args argv with
    | None => 2%Z
    | Some args => fst (run env args)
    end.
Proof.
  unfold main. destruct (parse_args argv) as [args|]; [|reflexivity].
  destruct (run env args). reflexivity.
Qed.

Lemma main_output env argv :
  snd (main env argv)
  = import_pisa env
    ++ match parse_args argv with
       | None => [PrintErr UsageError]
       | Some args => snd (run env args)
       end.
Proof.
  unfold main. destruct (parse_args argv) as [args|]; [|reflexivity].
  destruct (run env args). reflexivity.
Qed.

Lemma parse_supported argv code :
  year_code (year argv) YEAR_TO_API_CODE = Some code ->
  parse_args argv = Some argv.
Proof.
  intros H. unfold parse_args.
  rewrite (proj2 (supported_year _ _)) by eauto. reflexivity.
Qed.

Lemma parse_unsupported argv :
  year_code (year argv) YEAR_TO_API_CODE = None -> parse_args argv = None.
Proof.
  intros H. unfold parse_args.
  rewrite (proj2 (unsupported_year _ _)) by exact H. reflexivity.
Qed.

Ltac enter_run Hls Hreq Hy :=
  unfold run; rewrite Hls; cbv beta iota zeta;
  unfold flags_complete in Hreq; rewrite Hreq; cbv beta iota;
  rewrite Hy; cbv beta iota; unfold fetch_tnea_data.

Lemma run_no_response env args code :
  list_sortable_columns args = false -> flags_complete args ->
  year_code (year args) YEAR_TO_API_CODE = Some code ->
  (forall data, http_get env code <> Json data) ->
  fst (run env args) = 1%Z.
Proof.
  intros Hls Hreq Hy Hget. enter_run Hls Hreq Hy.
  destruct (http_get env code) as [data| | | | |]; try reflexivity.
  exfalso. eapply Hget. reflexivity.
Qed.

Lemma run_no_data env args code :
  list_sortable_columns args = false -> flags_complete args ->
  year_code (year args) YEAR_TO_API_CODE = Some code ->
  http_get env code = Json [] ->
  fst (run env args) = 0%Z.
Proof.
  intros Hls Hreq Hy Hget. enter_run Hls Hreq Hy. rewrite Hget. reflexivity.
Qed.

Lemma run_list_colleges env args code raw df out :
  list_sortable_columns args = false -> flags_complete args ->
  year_code (year args) YEAR_TO_API_CODE = Some code ->
  http_get env code = Json raw -> raw <> [] ->
  process_data raw = Ok df ->
  list_colleges args = true ->
  list_unique_values df "College Name" "Colleges" = Ok out ->
  fst (run env args) = 0%Z.
Proof.
  intros Hls Hreq Hy Hget Hne Hpd Hlc Hl. enter_run Hls Hreq Hy.
  rewrite Hget. destruct raw as [|r raw]; [contradiction|].
  cbv beta iota. rewrite Hpd. destruct (empty df); [reflexivity|].
  rewrite Hlc, Hl. reflexivity.
Qed.

Lemma run_list_branches env args code raw df out :
  list_sortable_columns args = false -> flags_complete args ->
  year_code (year args) YEAR_TO_API_CODE = Some code ->
  http_get env code = Json raw -> raw <> [] ->
  process_data raw = Ok df ->
  list_colleges args = false -> list_branches args = true ->
  list_unique_values df "Branch Name" "Branches" = Ok out ->
  fst (run env args) = 0%Z.
Proof.
  intros Hls Hreq Hy Hget Hne Hpd Hlc Hlb Hl. enter_run Hls Hreq Hy.
  rewrite Hget. destruct raw as [|r raw]; [contradiction|].
  cbv beta iota. rewrite Hpd. destruct (empty df); [reflexivity|].
  rewrite Hlc, Hlb, Hl. reflexivity.
Qed.

Lemma run_export env args code raw df kept :
  list_sortable_columns args = false -> flags_complete args ->
  year_code (year args) YEAR_TO_API_CODE = Some code ->
  http_get env code = Json raw -> raw <> [] ->
  process_data raw = Ok df ->
  list_colleges args = false -> list_branches args = false ->
  apply_filters df args = Ok kept ->
  fst (run env args) = 0%Z
  /\ (empty df = false -> empty kept = false ->
      snd (run env args)
      = [Print (FetchingFrom code)]
        ++ snd (apply_sorting kept args)
        ++ save_output env args (fst (apply_sorting kept args))).
Proof.
  intros Hls Hreq Hy Hget Hne Hpd Hlc Hlb Hf. enter_run Hls Hreq Hy.
  rewrite Hget. destruct raw as [|r raw]; [contradiction|].
  cbv beta iota. rewrite Hpd. destruct (empty df).
  - split; [reflexivity | discriminate].
  - rewrite Hlc, Hlb, Hf. destruct (empty kept).
    + split; [reflexivity | discriminate].
    + destruct (apply_sorting kept args). split; reflexivity.
Qed.

(** C7, as amended.  The status is 2 when the year is not a supported one
    (the argument parser refuses it); with a supported year it is 0 for
    [--list-sortable-columns], 1 when the fetch fails, and 0 when the fetch
    gives no record, when a list action has printed its list, and when the
    filters have run, whether or not any row matches. *)
Theorem exit_status env argv :
  (year_code (year argv) YEAR_TO_API_CODE = None ->
   fst (main env argv) = 2%Z)
  /\ forall code,
       year_code (year argv) YEAR_TO_API_CODE = Some code ->
       (list_sortable_columns argv = true -> fst (main env argv) = 0%Z)
       /\ (list_sortable_columns argv = false -> flags_complete argv ->
           ((forall data, http_get env code <> Json data) ->
            fst (main env argv) = 1%Z)
           /\ (http_get env code = Json [] -> fst (main env argv) = 0%Z)
           /\ forall raw df,
                http_get env code = Json raw -> raw <> [] ->
                process_data raw = Ok df ->
                (list_colleges argv = true ->
                 forall out,
                   list_unique_values df "College Name" "Colleges" = Ok out ->
                   fst (main env argv) = 0%Z)
                /\ (list_colleges argv = false -> list_branches argv = true ->
                    forall out,
                      list_unique_values df "Branch Name" "Branches" = Ok out ->
                      fst (main env argv) = 0%Z)
                /\ (list_colleges argv = false ->
                    list_branches argv = false ->
                    forall kept,
                      apply_filters df argv = Ok kept ->
                      fst (main env argv) = 0%Z)).
Proof.
  split.
  - intros H. rewrite main_status, (parse_unsupported _ H). reflexivity.
  - intros code Hy. rewrite main_status, (parse_supported _ Hy). split.
    + intros Hls. unfold run. rewrite Hls. reflexivity.
    + intros Hls Hreq. split; [|split].
      * intros Hget. eapply run_no_response; eassumption.
      * intros Hget. eapply run_no_data; eassumption.
      * intros raw df Hget Hne Hpd. split; [|split].
        -- intros Hlc out Hl. eapply run_list_colleges; eassumption.
        -- intros Hlc Hlb out Hl. eapply run_list_branches; eassumption.
        -- intros Hlc Hlb kept Hf.
           eapply run_export; eassumption.
Qed.


Lemma save_output_with_pisa b env args df :
  format args <> pdf ->
  save_output (with_pisa b env) args df = save_output env args df.
Proof.
  intros H. unfold save_output. destruct (output_file args) as [[|a f]|];
    try reflexivity.
  destruct (format args); [reflexivity | contradiction | reflexivity].
Qed.

Ltac walk_run :=
  unfold run, fetch_tnea_data; cbn [http_get with_pisa];
  destruct (list_sortable_columns _); [reflexivity|]; cbv zeta;
  destruct (negb _ && negb _); [reflexivity|];
  destruct (year_code _ _) as [code|]; [|reflexivity];
  destruct (http_get _ code) as [data| | | | |]; try reflexivity;
  destruct data as [|r raw]; [reflexivity|]; cbv beta iota;
  destruct (process_data (r :: raw)) as [df|]; [|reflexivity];
  destruct (empty df); [reflexivity|];
  destruct (list_colleges _);
    [destruct (list_unique_values df _ _); reflexivity|];
  destruct (list_branches _);
    [destruct (list_unique_values df _ _); reflexivity|];
  destruct (apply_filters df _) as [kept|]; [|reflexivity];
  destruct (empty kept); [reflexivity|];
  destruct (apply_sorting kept _) as [sorted warned].

Lemma run_status_with_pisa b env args :
  fst (run (with_pisa b env) args) = fst (run env args).
Proof. walk_run. reflexivity. Qed.

Lemma run_output_with_pisa b env args :
  format args <> pdf ->
  snd (run (with_pisa b env) args) = snd (run env args).
Proof.
  intros H. walk_run. cbn [snd].
  rewrite save_output_with_pisa by exact H. reflexivity.
Qed.

Lemma list_unique_values_prints df column display out :
  list_unique_values df column display = Ok out ->
  Forall writes_nothing out.
Proof.
  unfold list_unique_values.
  destruct (empty df || negb (has_column df column)).
  - intros H. apply Ok_inj in H. subst out. repeat constructor.
  - intros H. ok_steps. repeat constructor.
Qed.

Lemma apply_sorting_prints df args :
  Forall writes_nothing (snd (apply_sorting df args)).
Proof.
  unfold apply_sorting.
  destruct (empty df || negb (truthy (sort_by args))); [constructor|].
  destruct (resolve_sort_column _) as [c|]; [|repeat constructor].
  destruct (negb (has_column df c)); [repeat constructor|].
  destruct (sort_values _ _ _ _); repeat constructor.
Qed.

Lemma run_pdf_absent env args :
  pisa env = false -> format args = pdf ->
  Forall writes_nothing (snd (run env args)).
Proof.
  intros Hp Hf. unfold run, fetch_tnea_data.
  destruct (list_sortable_columns args); [repeat constructor|]. cbv zeta.
  destruct (negb _ && negb _); [repeat constructor|].
  destruct (year_code _ _) as [code|]; [|repeat constructor].
  destruct (http_get env code) as [data| | | | |];
    try (repeat constructor).
  destruct data as [|r raw]; [repeat constructor|]. cbv beta iota.
  destruct (process_data (r :: raw)) as [df|]; [|repeat constructor].
  destruct (empty df); [repeat constructor|].
  destruct (list_colleges args).
  { destruct (list_unique_values df _ _) eqn:E; cbn [snd app];
      constructor; try exact I; [|repeat constructor].
    eapply list_unique_values_prints. exact E. }
  destruct (list_branches args).
  { destruct (list_unique_values df _ _) eqn:E; cbn [snd app];
      constructor; try exact I; [|repeat constructor].
    eapply list_unique_values_prints. exact E. }
  destruct (apply_filters df args) as [kept|]; [|repeat constructor].
  destruct (empty kept); [repeat constructor|].
  pose proof (apply_sorting_prints kept args) as W.
  destruct (apply_sorting kept args) as [sorted warned]. cbn [snd] in *.
  cbn [app]. constructor; [exact I|]. apply Forall_app. split; [exact W|].
  unfold save_output. rewrite Hf, Hp.
  destruct (output_file args) as [[|a f]|]; repeat constructor.
Qed.

(** C9.  Without the PDF renderer, [save_to_pdf] only prints that the
    export is unavailable; a run that asks for a PDF writes no file, and
    where it reaches the export it prints the two warnings and ends with
    status 0; and the absence of the renderer changes neither the status of
    any run nor, for the other formats, anything a run prints or writes
    beyond the warning printed when the import fails. *)
Theorem pdf_renderer_absence env argv :
  pisa env = false ->
  (forall df filename,
     save_to_pdf env df filename = [PrintErr PdfUnavailable])
  /\ (format argv = pdf -> Forall writes_nothing (snd (main env argv)))
  /\ (format argv = pdf ->
      forall code raw df kept,
        list_sortable_columns argv = false -> flags_complete argv ->
        year_code (year argv) YEAR_TO_API_CODE = Some code ->
        http_get env code = Json raw -> raw <> [] ->
        process_data raw = Ok df -> empty df = false ->
        list_colleges argv = false -> list_branches argv = false ->
        apply_filters df argv = Ok kept -> empty kept = false ->
        truthy (output_file argv) = true ->
        main env argv
        = (0%Z,
           [PrintErr PdfImportWarning; Print (FetchingFrom code)]
           ++ snd (apply_sorting kept argv)
           ++ [PrintErr PdfSkipped; PrintErr PdfAdvice]))
  /\ fst (main env argv) = fst (main (with_pisa true env) argv)
  /\ (format argv <> pdf ->
      snd (main env argv)
      = PrintErr PdfImportWarning :: snd (main (with_pisa true env) argv)).
Proof.
  intros Hp. split; [|split; [|split; [|split]]].
  - intros df filename. unfold save_to_pdf. rewrite Hp. reflexivity.
  - intros Hf. rewrite main_output. apply Forall_app. split.
    + unfold import_pisa. rewrite Hp. repeat constructor.
    + destruct (parse_args argv) as [args|] eqn:E; [|repeat constructor].
      unfold parse_args in E.
      destruct (existsb _ _); [|discriminate]. injection E as <-.
      apply run_pdf_absent; assumption.
  - intros Hf code raw df kept Hls Hreq Hy Hget Hne Hpd He Hlc Hlb Hk Hek Ho.
    destruct (@run_export env argv code raw df kept
                Hls Hreq Hy Hget Hne Hpd Hlc Hlb Hk) as [St Out].
    specialize (Out He Hek).
    assert (Sv : save_output env argv (fst (apply_sorting kept argv))
                 = [PrintErr PdfSkipped; PrintErr PdfAdvice]).
    { unfold save_output. rewrite Hf, Hp.
      destruct (output_file argv) as [[|a f]|]; try discriminate.
      reflexivity. }
    rewrite Sv in Out.
    rewrite (surjective_pairing (main env argv)).
    rewrite main_status, main_output, (parse_supported _ Hy), St, Out.
    unfold import_pisa. rewrite Hp. reflexivity.
  - rewrite !main_status. unfold parse_args.
    destruct (existsb _ _); [|reflexivity].
    symmetry. apply run_status_with_pisa.
  - intros Hf. rewrite !main_output. unfold import_pisa.
    rewrite Hp. cbn [pisa with_pisa app]. f_equal. unfold parse_args.
    destruct (existsb _ _); [|reflexivity].
    symmetry. apply run_output_with_pisa. exact Hf.
Qed.

(** C6.  A name that is a canonical field name resolves to itself; any
    other name resolves to the canonical name of the first entry of the
    mapping, in declared order, whose canonical name or raw code contains
    it without regard to case; when no entry does, nothing is resolved,
    sorting reports the failure and gives the table back as it was, and the
    run goes on to save that table and ends with status 0. *)
Theorem sort_column_resolution s :
  (In s mapping_values -> resolve_sort_column s = Some s)
  /\ (~ In s mapping_values ->
      forall front k v back,
        COLUMN_MAPPING = front ++ (k, v) :: back ->
        Forall (fun kv => partial_match s kv = false) front ->
        contains (lower s) (lower v) || contains (lower s) (lower k) = true ->
        resolve_sort_column s = Some v)
  /\ (~ In s mapping_values ->
      Forall (fun kv => partial_match s kv = false) COLUMN_MAPPING ->
      resolve_sort_column s = None
      /\ (forall df args,
            empty df = false -> sort_by args = Some s ->
            apply_sorting df args
            = (df, [PrintErr (SortColumnNotFound s (columns df))]))
      /\ (forall env argv code raw df kept,
            sort_by argv = Some s ->
            list_sortable_columns argv = false -> flags_complete argv ->
            year_code (year argv) YEAR_TO_API_CODE = Some code ->
            http_get env code = Json raw -> raw <> [] ->
            process_data raw = Ok df -> empty df = false ->
            list_colleges argv = false -> list_branches argv = false ->
            apply_filters df argv = Ok kept -> empty kept = false ->
            main env argv
            = (0%Z,
               import_pisa env
               ++ [Print (FetchingFrom code)]
               ++ [PrintErr (SortColumnNotFound s (columns kept))]
               ++ save_output env argv kept))).
Proof.
  split; [|split].
  - intros H. unfold resolve_sort_column. apply mem_In in H. rewrite H.
    reflexivity.
  - intros Hv front k v back E Hf Hm. unfold resolve_sort_column.
    apply mem_false in Hv. rewrite Hv. rewrite E.
    rewrite (@find_first _ (partial_match s) front (k, v) back Hf Hm).
    reflexivity.
  - intros Hv Hn. pose proof (resolve_unmatched Hv Hn) as R.
    assert (S : forall df args,
               empty df = false -> sort_by args = Some s ->
               apply_sorting df args
               = (df, [PrintErr (SortColumnNotFound s (columns df))])).
    { intros df args He Hs. unfold apply_sorting. rewrite He, Hs.
      assert (T : truthy (Some s) = true).
      { destruct s; [|reflexivity]. exfalso.
        inversion Hn as [|kv l H _]; subst. discriminate H. }
      rewrite T. cbn [negb orb]. rewrite R. reflexivity. }
    split; [exact R|]. split; [exact S|].
    intros env argv code raw df kept Hs Hls Hreq Hy Hget Hne Hpd He Hlc Hlb
           Hk Hek.
    destruct (@run_export env argv code raw df kept
                Hls Hreq Hy Hget Hne Hpd Hlc Hlb Hk) as [St Out].
    specialize (Out He Hek). rewrite (S kept argv Hek Hs) in Out.
    cbn [fst snd] in Out.
    rewrite (surjective_pairing (main env argv)).
    rewrite main_status, main_output, (parse_supported _ Hy), St, Out.
    reflexivity.
Qed.

End MainClaims.

Section NormalizerClaims.

Context {P : Pandas}.

Lemma map_fst_flat_map (g : string -> record) labels :
  map fst (flat_map g labels) = flat_map (fun l => map fst (g l)) labels.
Proof.
  induction labels as [|l ls IH]; simpl; [reflexivity|].
  rewrite map_app, IH. reflexivity.
Qed.

Lemma well_formed_reordered df : well_formed df -> well_formed (reordered df).
Proof.
  unfold well_formed, reordered, select. cbn [columns rows]. intros W.
  apply Forall_forall. intros r Hr. apply in_map_iff in Hr.
  destruct Hr as (r0 & <- & Hr0). rewrite Forall_forall in W.
  rewrite map_fst_flat_map. rewrite <- (W r0 Hr0).
  apply flat_map_ext. intros l. unfold fields_of.
  rewrite (map_fst_filter (fun x => String.eqb x l)).
  apply filter_ext. intros x. apply String.eqb_sym.
Qed.

Lemma normalized_well_formed raw df :
  process_data raw = Ok df -> well_formed df.
Proof.
  intros H. destruct raw as [|rec0 raw0].
  - apply Ok_inj in H. subst df. constructor.
  - assert (Hne : rec0 :: raw0 <> []) by discriminate.
    destruct (process_data_steps Hne H) as (d3 & d4 & H3 & H4 & ->).
    destruct (prepared_facts (rec0 :: raw0)) as [W2 K2].
    destruct (fold_assign_Ok _ NoDup_CUTOFF_COLUMNS W2 H3) as (W3 & C3 & F3).
    destruct (fold_assign_Ok _ NoDup_seat_cols W3 H4) as (W4 & C4 & F4).
    apply well_formed_reordered. exact W4.
Qed.

(** What a normalized table holds: every canonical field in every row, a
    number or a null in each cutoff field, an integer or a null in each seat
    field. *)
Lemma normalized_kinds raw df :
  process_data raw = Ok df -> raw <> [] ->
  (forall name, In name mapping_values -> In name (columns df))
  /\ (forall name, In name CUTOFF_COLUMNS ->
        Forall (fun r => num_or_null (field name r) = true) (rows df))
  /\ (forall name, In name seat_cols ->
        Forall (fun r => int_or_null (field name r) = true) (rows df)).
Proof.
  intros H Hne.
  destruct (process_data_steps Hne H) as (d3 & d4 & H3 & H4 & E).
  split; [|split].
  - intros name Hn. subst df.
    destruct (prepared_facts raw) as [W2 K2].
    destruct (fold_assign_Ok _ NoDup_CUTOFF_COLUMNS W2 H3) as (W3 & C3 & F3).
    destruct (fold_assign_Ok _ NoDup_seat_cols W3 H4) as (W4 & C4 & F4).
    apply reordered_has; [exact Hn|]. rewrite C4, C3. apply K2. exact Hn.
  - intros name Hn.
    apply (@normalized_column P num_or_null raw df name Hne H eq_refl).
    left. split; [apply mem_In; exact Hn | apply to_numeric_num_or_null].
  - intros name Hn.
    apply (@normalized_column P int_or_null raw df name Hne H eq_refl).
    right. split; [apply mem_In; exact Hn|].
    intros c c'. apply astype_Int64_int.
Qed.

(** C8.  A normalized table is well formed; when the raw field names stay
    distinct under the renaming, its columns are the canonical fields in
    their declared order followed by the raw fields the mapping does not
    know (["_id"] apart) in the order they were met; and each row holds,
    under every such field, the value of its raw record (a null where the
    record lacks the field). *)
Theorem canonical_fields_first raw df :
  process_data raw = Ok df ->
  well_formed df
  /\ (raw <> [] -> distinct (renamed_keys raw) = true ->
      columns df = mapping_values ++ extra_fields raw)
  /\ Forall2 (fun rec r => forall l, In l (extra_fields raw) ->
                                     lookup l r = Some (field l rec))
             raw (rows df).
Proof.
  intros H. split; [|split].
  - eapply normalized_well_formed. exact H.
  - intros Hne D. apply normalized_columns; assumption.
  - apply normalized_rows. exact H.
Qed.

End NormalizerClaims.

(** C5.  A seat count that is a number but not an integer makes
    [process_data] raise: the cast to [Int64] refuses it.  This holds for
    the JSON number 5.5 whatever the library's parser, and for the string
    "5.5" with the decimal parser. *)
Theorem fractional_seat_count_raises :
  (forall P : Pandas,
     @process_data P [[("octl", Num (11 # 2))]] = Raise TypeError)
  /\ @process_data reference [[("octl", Str "5.5")]] = Raise TypeError.
Proof.
  split.
  - intros P. vm_compute. reflexivity.
  - vm_compute. reflexivity.
Qed.

(** The record of the specification's example: an empty cutoff string
    becomes a null, "180.5" the number 180.5, the college code is kept. *)
Example normalized_example :
  let raw := [[("coc", Str "5"); ("con", Str "ABC College");
               ("brc", Str "CS"); ("OC", Str ""); ("ST", Str "180.5")]] in
  exists df r,
    @process_data reference raw = Ok df /\ rows df = [r]
    /\ field "OC Cutoff" r = Null
    /\ field "ST Cutoff" r = Num (361 # 2)
    /\ field "College Code" r = Str "5"
    /\ map fst r = mapping_values.
Proof.
  eexists. eexists. split; [vm_compute; reflexivity|].
  split; [reflexivity|]. repeat split.
Qed.

(** * The claims at the sample data *)

Lemma cutoff_filter_inclusive_bounds_witness :
  @apply_filters reference sample_table (oc_between 150 180 sample_args)
  = Ok (mkFrame (columns sample_table)
          (filter (fun r => forallb
                     (fun c => within_bounds
                                 (min_cutoff (oc_between 150 180 sample_args) c)
                                 (max_cutoff (oc_between 150 180 sample_args) c)
                                 (cutoff_of c r))
                     communities)
                  (rows sample_table))).
Proof.
  refine (proj1 (@cutoff_filter_inclusive_bounds reference sample_raw
                   sample_table (oc_between 150 180 sample_args) _ _)).
  - vm_compute. reflexivity.
  - repeat split; reflexivity.
Defined.



Lemma null_placement_in_sort_witness :
  exists valued nulls,
    Forall (fun r => notna (field "OC Cutoff" r) = true) valued
    /\ Forall (fun r => isna (field "OC Cutoff" r) = true) nulls
    /\ Permutation (rows sample_table) (valued ++ nulls)
    /\ rows (fst (@apply_sorting reference sample_table
                    (sorted_by "OC Cutoff" desc sample_args)))
       = nulls ++ valued.
Proof.
  destruct (@null_placement_in_sort reference sample_table
              (sorted_by "OC Cutoff" desc sample_args)
              "OC Cutoff" "OC Cutoff")
    as (valued & nulls & Hv & Hn & Hp & _ & _ & _ & _ & Hd & _).
  - exact reference_sorts.
  - vm_compute. reflexivity.
  - reflexivity.
  - discriminate.
  - vm_compute. reflexivity.
  - exists valued, nulls. repeat split; try assumption.
    apply Hd; [reflexivity|]. simpl. auto.
Defined.



(** The specification's example of null placement, on the sample: OC
    cutoffs 200, null, 150, 150. *)
Example sort_null_placement_example :
  map (field "OC Cutoff")
      (rows (fst (@apply_sorting reference sample_table
                    (sorted_by "OC Cutoff" asc sample_args))))
  = [Num 150; Num 150; Num 200; Null]
  /\ map (field "OC Cutoff")
         (rows (fst (@apply_sorting reference sample_table
                       (sorted_by "OC Cutoff" desc sample_args))))
     = [Null; Num 200; Num 150; Num 150]
  /\ map (field "College Code")
         (rows (fst (@apply_sorting reference sample_table
                       (sorted_by "College Code" desc sample_args))))
     = [Str "4"; Str "3"; Str "2"; Str "1"].
Proof. repeat split; vm_compute; reflexivity. Qed.

Lemma sort_column_resolution_witness :
  resolve_sort_column "branch" = Some "Branch Code".
Proof.
  destruct (@sort_column_resolution reference "branch")
    as (_ & Partial & _).
  apply (Partial (proj1 (mem_false "branch" mapping_values) eq_refl)
           [("coc", "College Code"); ("con", "College Name")]
           "brc" "Branch Code"
           (skipn 3 COLUMN_MAPPING)).
  - reflexivity.
  - repeat constructor.
  - vm_compute. reflexivity.
Defined.

(** C7, as stated, fails: with an unsupported year the status is 2. *)
Lemma exit_status_counterexample :
  ~ (forall (P : Pandas) env argv,
       year_code (year argv) YEAR_TO_API_CODE = None ->
       fst (main env argv) = 1%Z).
Proof.
  intros H.
  specialize (H reference sample_env (for_year 2019 sample_args) eq_refl).
  vm_compute in H. discriminate H.
Qed.

Lemma exit_status_witness :
  fst (@main reference sample_env (for_year 2019 sample_args)) = 2%Z
  /\ fst (@main reference sample_env sample_args) = 0%Z.
Proof.
  split.
  - apply (proj1 (@exit_status reference sample_env
                    (for_year 2019 sample_args))).
    reflexivity.
  - destruct (@exit_status reference sample_env sample_args) as [_ S].
    destruct (S "1C" eq_refl) as [_ S'].
    destruct (S' eq_refl eq_refl) as (_ & _ & S'').
    destruct (S'' sample_raw sample_table) as (_ & _ & Export).
    + reflexivity.
    + discriminate.
    + vm_compute. reflexivity.
    + apply (Export eq_refl eq_refl sample_table). vm_compute. reflexivity.
Defined.

Lemma canonical_fields_first_witness :
  columns sample_table = mapping_values ++ extra_fields sample_raw
  /\ Forall2 (fun rec r => forall l, In l (extra_fields sample_raw) ->
                                     lookup l r = Some (field l rec))
             sample_raw (rows sample_table).
Proof.
  destruct (@canonical_fields_first reference sample_raw sample_table)
    as (_ & Cols & Cells).
  - vm_compute. reflexivity.
  - split; [|exact Cells]. apply Cols.
    + discriminate.
    + vm_compute. reflexivity.
Defined.

Lemma pdf_renderer_absence_witness :
  Forall writes_nothing
         (snd (@main reference sample_env (in_format pdf sample_args)))
  /\ fst (@main reference sample_env (in_format pdf sample_args))
     = fst (@main reference (with_pisa true sample_env)
              (in_format pdf sample_args)).
Proof.
  destruct (@pdf_renderer_absence reference sample_env
              (in_format pdf sample_args) eq_refl)
    as (_ & Quiet & _ & Status & _).
  split; [apply Quiet; reflexivity | exact Status].
Defined.

(** * Further properties of the script *)

Section RunFacts.

Context {P : Pandas}.

Lemma normalized_not_empty raw df :
  raw <> [] -> process_data raw = Ok df -> empty df = false.
Proof.
  intros Hne Hpd.
  pose proof (normalized_rows _ Hpd) as Rows.
  destruct (@normalized_column P (fun _ => true) raw df "OC Cutoff" Hne Hpd
              eq_refl (or_introl (conj eq_refl (fun _ => eq_refl))))
    as [Col _].
  unfold empty. destruct (rows df) as [|r rs].
  - inversion Rows; subst. contradiction.
  - destruct (columns df); [contradiction | reflexivity].
Qed.

(** Case analysis along the branches of [run]. *)
Ltac split_run :=
  repeat (cbv beta iota zeta;
          match goal with
          | |- context [match ?x with _ => _ end] =>
              lazymatch x with
              | context [match _ with _ => _ end] => fail
              | _ => destruct x eqn:?
              end
          end).

Ltac enter_main argv Hy :=
  rewrite ?main_status, ?main_output;
  destruct (year_code (year argv) YEAR_TO_API_CODE) as [code|] eqn:Hy;
  [ rewrite ?(parse_supported _ Hy); unfold run, fetch_tnea_data;
    rewrite ?Hy
  | rewrite ?(parse_unsupported _ Hy) ].

(** X1.  The exit status is 0, 1 or 2, and it is 2 exactly when the command
    line is refused: for a year that is not supported, and for a missing (or
    empty) output file when no list action is asked for. *)
Theorem exit_status_values env argv :
  (fst (main env argv) = 0 \/ fst (main env argv) = 1
   \/ fst (main env argv) = 2)%Z
  /\ (fst (main env argv) = 2%Z <-> usage_error argv).
Proof.
  unfold usage_error. enter_main argv Hy.
  - split_run; cbn [fst]; (split; [auto|]); split;
      try discriminate;
      try (intros [H|(H1 & H2 & H3 & H4)]; [discriminate H|];
           try congruence;
           match goal with
           | E : _ && _ = false |- _ =>
               try rewrite H2 in E; try rewrite H3 in E;
               try rewrite H4 in E; discriminate E
           end).
    intros _. right. split; [reflexivity|].
    match goal with E : _ && _ = true |- _ => revert E end.
    destruct (list_colleges argv), (list_branches argv),
      (truthy (output_file argv)); simpl; try discriminate; auto.
  - split; [auto|]. split; auto.
Qed.

Lemma not_written l fmt filename t :
  Forall writes_nothing l -> ~ In (FileWritten fmt filename t) l.
Proof.
  intros F H. rewrite Forall_forall in F. exact (F _ H).
Qed.

Lemma save_output_written env args sorted fmt filename t :
  In (FileWritten fmt filename t) (save_output env args sorted) ->
  output_file args = Some filename /\ format args = fmt
  /\ (fmt = pdf -> pisa env = true)
  /\ export_ok env fmt t filename = true /\ t = sorted.
Proof.
  unfold save_output, save_to_excel, save_to_csv, save_to_pdf, export.
  destruct (output_file args) as [[|a f]|]; simpl; try tauto.
  destruct (format args), (pisa env);
    try (destruct (export_ok env _ sorted (String a f)) eqn:E);
    simpl; intros H; intuition (try discriminate);
    match goal with
    | X : FileWritten _ _ _ = FileWritten _ _ _ |- _ =>
        inversion X; subst; auto; congruence
    end.
Qed.

(** X2.  A file is written only by a run that ends with status 0 and was
    asked for neither list: it is the file named by [--output-file], in the
    format asked for, and it holds the fetched records as normalised,
    filtered and sorted. (For the PDF format the renderer is there.) *)
Theorem file_written_by_export_only env argv fmt filename t :
  In (FileWritten fmt filename t) (snd (main env argv)) ->
  fst (main env argv) = 0%Z
  /\ list_sortable_columns argv = false
  /\ list_colleges argv = false /\ list_branches argv = false
  /\ output_file argv = Some filename /\ format argv = fmt
  /\ (fmt = pdf -> pisa env = true)
  /\ export_ok env fmt t filename = true
  /\ exists code raw df kept,
       year_code (year argv) YEAR_TO_API_CODE = Some code
       /\ http_get env code = Json raw
       /\ process_data raw = Ok df
       /\ apply_filters df argv = Ok kept /\ empty kept = false
       /\ t = fst (apply_sorting kept argv).
Proof.
  enter_main argv Hy.
  2:{ intros H. apply in_app_or in H. unfold import_pisa in H.
      destruct (pisa env); simpl in H; intuition discriminate. }
  intros H. apply in_app_or in H. destruct H as [H|H].
  { unfold import_pisa in H.
    destruct (pisa env); simpl in H; intuition discriminate. }
  revert H. split_run; cbn [fst snd]; intros H;
    try solve [simpl in H; intuition discriminate];
    try (match goal with
         | E : list_unique_values _ _ _ = Ok _ |- _ =>
             pose proof (list_unique_values_prints _ _ _ E) as W;
             simpl in H; destruct H as [H|H]; [discriminate H|];
             destruct (@not_written _ _ _ _ W H)
         end).
  match goal with
  | E : apply_sorting ?kept argv = (?sorted, ?warned) |- _ =>
      pose proof (apply_sorting_prints kept argv) as W;
      rewrite E in W; cbn [snd] in W
  end.
  simpl in H. destruct H as [H|H]; [discriminate H|].
  apply in_app_or in H.
  destruct H as [H|H]; [destruct (@not_written _ _ _ _ W H)|].
  apply save_output_written in H.
  destruct H as (Ho & Hfmt & Hp & Hx & ->).
  repeat (split; [assumption || reflexivity|]).
  do 4 eexists. repeat (split; [eassumption || reflexivity|]).
  match goal with E : apply_sorting _ _ = _ |- _ => rewrite E end.
  reflexivity.
Qed.

Lemma list_unique_values_out df column display out :
  list_unique_values df column display = Ok out ->
  out = [Print (ListingUnavailable display column)]
  \/ exists items, out = [Print (Listing display items)].
Proof.
  unfold list_unique_values.
  destruct (empty df || negb (has_column df column)).
  - intros H. apply Ok_inj in H. auto.
  - intros H. ok_steps. eauto.
Qed.

Lemma apply_sorting_out df args :
  snd (apply_sorting df args) = []
  \/ (exists s available,
        snd (apply_sorting df args)
        = [PrintErr (SortColumnNotFound s available)])
  \/ exists c e, snd (apply_sorting df args) = [PrintErr (SortFailed c e)].
Proof.
  unfold apply_sorting.
  destruct (empty df || negb (truthy (sort_by args))); [auto|].
  destruct (resolve_sort_column _) as [c|]; [|cbn [snd]; eauto].
  destruct (negb (has_column df c)); [cbn [snd]; eauto|].
  destruct (sort_values _ _ _ _); cbn [snd]; eauto.
Qed.

Lemma save_output_out env args t e :
  In e (save_output env args t) ->
  (exists fmt filename table, e = FileWritten fmt filename table)
  \/ (exists filename, e = Print (SavedTo filename))
  \/ (exists fmt filename, e = PrintErr (SaveFailed fmt filename))
  \/ e = PrintErr PdfSkipped \/ e = PrintErr PdfAdvice.
Proof.
  unfold save_output, save_to_excel, save_to_csv, save_to_pdf, export.
  destruct (output_file args) as [[|a f]|]; simpl; try tauto.
  destruct (format args), (pisa env);
    try (destruct (export_ok env _ t (String a f)));
    simpl; intros H; intuition (subst; eauto 8).
Qed.

(** X3.  A run asks the server at most once, for the code of the year given,
    and not at all when it only lists the sortable columns or when the
    command line is refused. *)
Theorem fetches_at_most_once env argv :
  flat_map fetches (snd (main env argv))
  = match year_code (year argv) YEAR_TO_API_CODE with
    | Some code =>
        if list_sortable_columns argv then []
        else if negb (list_colleges argv || list_branches argv)
                && negb (truthy (output_file argv))
             then []
             else [code]
    | None => []
    end.
Proof.
  assert (Quiet : forall l,
             Forall (fun e => fetches e = []) l -> flat_map fetches l = []).
  { induction 1 as [|e l He _ IH]; simpl; [reflexivity|].
    rewrite He, IH. reflexivity. }
  assert (I : flat_map fetches (import_pisa env) = []).
  { unfold import_pisa. destruct (pisa env); reflexivity. }
  rewrite main_output, flat_map_app, I. cbn [app].
  destruct (year_code (year argv) YEAR_TO_API_CODE) as [code|] eqn:Hy;
    [rewrite (parse_supported _ Hy) | rewrite (parse_unsupported _ Hy)];
    [|reflexivity].
  unfold run, fetch_tnea_data. rewrite Hy.
  split_run; cbn [snd]; try reflexivity;
    try (match goal with
         | E : list_unique_values _ _ _ = Ok _ |- _ =>
             destruct (list_unique_values_out _ _ _ E) as [->|[items ->]];
             reflexivity
         end).
  match goal with
  | E : apply_sorting ?kept argv = (?sorted, ?warned) |- _ =>
      pose proof (apply_sorting_out kept argv) as W;
      rewrite E in W; cbn [snd] in W
  end.
  rewrite !flat_map_app. cbn [flat_map fetches app]. f_equal.
  rewrite (Quiet (save_output _ _ _)).
  - destruct W as [->|[(s & av & ->)|(c & e & ->)]]; reflexivity.
  - apply Forall_forall. intros e He. apply save_output_out in He.
    destruct He as [(x & y & z & ->)|[(x & ->)|[(x & y & ->)|[->| ->]]]];
      reflexivity.
Qed.

(** X4.  Two branches of [main] are never taken: the year check after the
    parser (the parser has already refused any other year) and the check for
    an empty table after normalisation (records that were fetched always
    give rows and columns). *)
Theorem dead_branches_of_main env argv :
  Forall (fun e => ~ in_dead_branch e) (snd (main env argv)).
Proof.
  rewrite main_output. apply Forall_app. split.
  { unfold import_pisa. destruct (pisa env); repeat constructor; tauto. }
  destruct (year_code (year argv) YEAR_TO_API_CODE) as [code|] eqn:Hy;
    [rewrite (parse_supported _ Hy) | rewrite (parse_unsupported _ Hy)];
    [|repeat constructor; tauto].
  unfold run, fetch_tnea_data. rewrite Hy.
  split_run; cbn [snd];
    try solve [repeat constructor; tauto];
    try (match goal with
         | E : list_unique_values _ _ _ = Ok _ |- _ =>
             destruct (list_unique_values_out _ _ _ E) as [->|[items ->]];
             repeat constructor; tauto
         end).
  - exfalso.
    match goal with
    | E : process_data (?r :: ?l) = Ok ?a, N : empty ?a = true |- _ =>
        rewrite (@normalized_not_empty (r :: l) a) in N;
        [discriminate N | discriminate | exact E]
    end.
  - match goal with
    | E : apply_sorting ?kept argv = (?sorted, ?warned) |- _ =>
        pose proof (apply_sorting_out kept argv) as W;
        rewrite E in W; cbn [snd] in W
    end.
    cbn [app]. constructor; [tauto|]. apply Forall_app. split.
    + destruct W as [->|[(s & av & ->)|(c & e & ->)]];
        repeat constructor; tauto.
    + apply Forall_forall. intros e He. apply save_output_out in He.
      destruct He as [(x & y & z & ->)|[(x & ->)|[(x & y & ->)|[->| ->]]]];
        simpl; tauto.
Qed.

End RunFacts.

Lemma file_written_by_export_only_witness :
  fst (@main reference sample_env sample_args) = 0%Z
  /\ output_file sample_args = Some "out.xlsx".
Proof.
  destruct (@file_written_by_export_only reference sample_env sample_args
              excel "out.xlsx" sample_table)
    as (Status & _ & _ & _ & File & _).
  - vm_compute. right. right. left. reflexivity.
  - split; assumption.
Defined.

(** ** Resolution of the sort column *)

Lemma find_pointwise {A : Type} (f g : A -> bool) l :
  (forall x, f x = g x) -> find f l = find g l.
Proof.
  intros E. induction l as [|x l IH]; simpl; [reflexivity|].
  rewrite E, IH. reflexivity.
Qed.

Lemma find_matches {A : Type} (f : A -> bool) l :
  find f l = None -> Forall (fun x => f x = false) l.
Proof.
  induction l as [|x l IH]; simpl; [constructor|].
  destruct (f x) eqn:E; [discriminate|]. intros H. constructor; auto.
Qed.

(** X5.  The last lines of the resolution, which look the name up among the
    raw codes when no entry matched, never change its outcome: a name that
    is a raw code is already matched by its own entry. *)
Theorem sort_fallback_never_used s :
  resolve_sort_column s
  = if mem s mapping_values then Some s
    else match find (partial_match s) COLUMN_MAPPING with
         | Some kv => Some (snd kv)
         | None => None
         end.
Proof.
  destruct (mem s mapping_values) eqn:M.
  - unfold resolve_sort_column. rewrite M. reflexivity.
  - destruct (find (partial_match s) COLUMN_MAPPING) as [kv|] eqn:F.
    + unfold resolve_sort_column. rewrite M, F. reflexivity.
    + apply resolve_unmatched.
      * apply mem_false. exact M.
      * apply find_matches. exact F.
Qed.

Lemma partial_match_lower s s' kv :
  lower s = lower s' -> partial_match s kv = partial_match s' kv.
Proof. intros E. unfold partial_match. rewrite E. reflexivity. Qed.

(** X6.  A canonical column name given in any letter case resolves to that
    column. *)
Theorem sort_name_in_any_case s v :
  In v mapping_values -> lower s = lower v ->
  resolve_sort_column s = Some v.
Proof.
  intros Hv Hl.
  assert (Distinct :
            forallb (fun a => forallb (fun b =>
                       implb (String.eqb (lower a) (lower b))
                             (String.eqb a b)) mapping_values)
                    mapping_values = true) by (vm_compute; reflexivity).
  assert (Own :
            forallb (fun b =>
                       match find (partial_match b) COLUMN_MAPPING with
                       | Some kv => String.eqb (snd kv) b
                       | None => false
                       end) mapping_values = true)
    by (vm_compute; reflexivity).
  rewrite forallb_forall in Distinct, Own.
  unfold resolve_sort_column.
  destruct (mem s mapping_values) eqn:M.
  - apply mem_In in M. specialize (Distinct s M).
    rewrite forallb_forall in Distinct. specialize (Distinct v Hv).
    rewrite Hl, String.eqb_refl in Distinct. simpl in Distinct.
    apply String.eqb_eq in Distinct. subst. reflexivity.
  - rewrite (find_pointwise _ (partial_match v)
               COLUMN_MAPPING (fun kv => @partial_match_lower s v kv Hl)).
    specialize (Own v Hv).
    destruct (find (partial_match v) COLUMN_MAPPING) as [kv|];
      [|discriminate].
    apply String.eqb_eq in Own. subst. reflexivity.
Qed.

Lemma sort_name_in_any_case_witness :
  resolve_sort_column "oc cutoff" = Some "OC Cutoff".
Proof.
  apply sort_name_in_any_case.
  - vm_compute. tauto.
  - reflexivity.
Defined.

(** X7.  Every raw code resolves to its own column, except [OC]: the entry
    of [coc] comes first and contains it, so [--sort-by OC] sorts by the
    college code. *)
Theorem sort_by_raw_code k v :
  In (k, v) COLUMN_MAPPING ->
  resolve_sort_column k
  = Some (if String.eqb k "OC" then "College Code" else v).
Proof.
  intros H.
  assert (All :
            forallb (fun kv =>
                       match resolve_sort_column (fst kv) with
                       | Some c =>
                           String.eqb c (if String.eqb (fst kv) "OC"
                                         then "College Code" else snd kv)
                       | None => false
                       end) COLUMN_MAPPING = true)
    by (vm_compute; reflexivity).
  rewrite forallb_forall in All. specialize (All _ H). cbn [fst snd] in All.
  destruct (resolve_sort_column k) as [c|]; [|discriminate].
  apply String.eqb_eq in All. subst. reflexivity.
Qed.

Lemma sort_by_raw_code_witness :
  resolve_sort_column "OC" = Some "College Code"
  /\ resolve_sort_column "BC" = Some "BC Cutoff".
Proof.
  split.
  - apply (@sort_by_raw_code "OC" "OC Cutoff"). vm_compute. tauto.
  - apply (@sort_by_raw_code "BC" "BC Cutoff"). vm_compute. tauto.
Defined.

(** ** The normalised table *)

Section NormalizerMore.

Context {P : Pandas}.

Lemma reordered_columns_in df l :
  In l (columns (reordered df)) -> In l (columns df).
Proof.
  unfold reordered, select. cbn [columns]. intros H.
  apply in_flat_map in H. destruct H as (x & _ & H).
  apply filter_In in H. exact (proj1 H).
Qed.

Lemma renamed_not_id raw : ~ In "_id" (renamed_keys raw).
Proof.
  unfold renamed_keys. intros H. apply in_map_iff in H.
  destruct H as (k & E & H). apply filter_In in H. destruct H as [_ H].
  destruct (rename_label_cases k) as [[_ V]|[_ Same]].
  - rewrite E in V. revert V. apply mem_false. vm_compute. reflexivity.
  - rewrite Same in E. subst k. discriminate H.
Qed.

(** X8.  The shape of a normalised table: one row for each record, no [_id]
    column, and (when there is a record at all) every canonical column. *)
Theorem normalized_shape raw df :
  process_data raw = Ok df ->
  List.length (rows df) = List.length raw
  /\ has_column df "_id" = false
  /\ (raw <> [] ->
      forall name, In name mapping_values -> has_column df name = true).
Proof.
  intros H. split; [|split].
  - symmetry. eapply Forall2_length. apply (normalized_rows _ H).
  - destruct raw as [|rec0 raw0].
    { apply Ok_inj in H. subst df. reflexivity. }
    set (raw := rec0 :: raw0) in *.
    assert (Hne : raw <> []) by discriminate.
    destruct (process_data_steps Hne H) as (d3 & d4 & H3 & H4 & ->).
    destruct (prepared_facts raw) as [W2 K2].
    destruct (fold_assign_Ok _ NoDup_CUTOFF_COLUMNS W2 H3) as (W3 & C3 & _).
    destruct (fold_assign_Ok _ NoDup_seat_cols W3 H4) as (W4 & C4 & _).
    destruct (has_column (reordered d4) "_id") eqn:E; [|reflexivity].
    exfalso. apply has_column_In in E. apply reordered_columns_in in E.
    rewrite C4, C3, prepared_columns in E. apply in_app_or in E.
    destruct E as [E|E].
    + exact (renamed_not_id _ E).
    + apply filter_In in E. destruct E as [E _]. revert E.
      apply mem_false. vm_compute. reflexivity.
  - intros Hne name Hn.
    destruct (process_data_steps Hne H) as (d3 & d4 & H3 & H4 & ->).
    destruct (prepared_facts raw) as [W2 K2].
    destruct (fold_assign_Ok _ NoDup_CUTOFF_COLUMNS W2 H3) as (W3 & C3 & _).
    destruct (fold_assign_Ok _ NoDup_seat_cols W3 H4) as (W4 & C4 & _).
    apply has_column_In. apply reordered_has; [exact Hn|].
    rewrite C4, C3. apply K2. exact Hn.
Qed.















Lemma lookup_NoDup {V : Type} k (c : V) r :
  NoDup (map fst r) -> In (k, c) r -> lookup k r = Some c.
Proof.
  induction r as [|[k' c'] r IH]; cbn [map fst lookup]; intros N H;
    [destruct H|].
  inversion N as [|x l Hx N']; subst. destruct H as [H|H].
  - injection H as -> ->. rewrite String.eqb_refl. reflexivity.
  - destruct (String.eqb_spec k' k) as [->|_]; [|apply IH; assumption].
    exfalso. apply Hx. apply (in_map fst) in H. exact H.
Qed.









End NormalizerMore.

Lemma normalized_shape_witness :
  List.length (rows sample_table) = 4
  /\ has_column sample_table "_id" = false
  /\ has_column sample_table "ST Allotted Seats" = true.
Proof.
  destruct (@normalized_shape reference sample_raw sample_table)
    as (Len & Id & Cols).
  - vm_compute. reflexivity.
  - split; [exact Len|]. split; [exact Id|]. apply Cols.
    + discriminate.
    + vm_compute. tauto.
Defined.



(** ** The filters as one test per row *)

Section FilterMore.

Context {P : Pandas}.

Lemma kept_by_narrows test df : narrows df (kept_by test df).
Proof. split; [reflexivity | apply subseq_filter]. Qed.

Lemma filter_code_spec code df :
  filterable df -> filter_code code df = Ok (kept_by (code_matches code) df).
Proof.
  intros [Id _]. destruct (Id "College Code") as [Has _];
    [simpl; tauto|].
  unfold filter_code. rewrite (getitem_has _ _ Has). cbn [bind].
  rewrite boolean_index_filter. reflexivity.
Qed.

Lemma filter_name_spec label pat search df :
  filterable df -> In label identity_columns ->
  re_compile pat = Some search ->
  filter_name label pat df = Ok (kept_by (name_matches label pat) df).
Proof.
  intros [Id _] Hl Hre. destruct (Id label Hl) as [Has Strs].
  unfold filter_name. rewrite (getitem_has _ _ Has). cbn [bind].
  unfold str_contains. rewrite str_accessor_ok.
  2:{ apply Forall_map_iff. exact Strs. }
  cbn [bind]. rewrite Hre. cbn [bind].
  rewrite (boolean_index_filter df label
             (fun c => match c with Str s => search s | _ => false end)).
  unfold kept_by. apply frame_rows_eq. apply filter_ext.
  intros r. unfold name_matches. rewrite Hre. reflexivity.
Qed.


Lemma filter_branch_code_spec code df :
  filterable df ->
  filter_branch_code_eq code df = Ok (kept_by (branch_matches code) df).
Proof.
  intros [Id _]. destruct (Id "Branch Code") as [Has Strs];
    [simpl; tauto|].
  unfold filter_branch_code_eq. rewrite (getitem_has _ _ Has). cbn [bind].
  unfold str_upper. rewrite str_accessor_ok.
  2:{ apply Forall_map_iff. exact Strs. }
  cbn [bind]. unfold eq_scalar. rewrite map_map.
  rewrite (boolean_index_filter df "Branch Code"
             (fun c => match match c with
                              | Str s => Str (upper s)
                              | _ => Null
                              end with
                       | Str u => String.eqb u (upper code)
                       | _ => false
                       end)).
  unfold kept_by. apply frame_rows_eq. apply filter_ext.
  intros r. unfold branch_matches.
  destruct (field "Branch Code" r); reflexivity.
Qed.

Lemma if_set_spec arg f test df :
  (forall s, arg = Some s -> truthy arg = true ->
             f s df = Ok (kept_by (test s) df)) ->
  if_set arg f df = Ok (kept_by (when_set arg test) df).
Proof.
  intros H. unfold if_set, when_set. destruct arg as [s|].
  - destruct (truthy (Some s)) eqn:T.
    + rewrite (H s eq_refl eq_refl). reflexivity.
    + unfold kept_by. rewrite filter_true, frame_eta. reflexivity.
  - cbn [truthy]. unfold kept_by. rewrite filter_true, frame_eta.
    reflexivity.
Qed.

Lemma kept_by_twice f g df :
  kept_by g (kept_by f df) = kept_by (fun r => f r && g r) df.
Proof.
  unfold kept_by. cbn [columns rows]. rewrite filter_filter. reflexivity.
Qed.

Lemma filterable_not_empty df :
  filterable df ->
  empty df = match rows df with [] => true | _ => false end.
Proof.
  intros [Id _]. destruct (Id "College Code") as [Has _]; [simpl; tauto|].
  apply has_column_In in Has. unfold empty.
  destruct (rows df); [reflexivity|]. destruct (columns df); [destruct Has|].
  reflexivity.
Qed.

Lemma apply_filters_kept df args :
  filterable df -> patterns_compile args ->
  apply_filters df args = Ok (kept_by (passes args) df).
Proof.
  intros Hf [Hcn Hbn]. unfold apply_filters.
  rewrite (filterable_not_empty Hf).
  destruct (rows df) as [|r0 rs] eqn:Hrows.
  { unfold kept_by. rewrite Hrows. cbn [filter]. rewrite <- Hrows.
    rewrite frame_eta. reflexivity. }
  cbv iota.
  rewrite (@if_set_spec (filter_college_code args) filter_code code_matches).
  2:{ intros s _ _. apply filter_code_spec. exact Hf. }
  cbn [bind].
  set (d1 := kept_by _ df).
  assert (F1 : filterable d1)
    by (eapply filterable_narrows; [exact Hf | apply kept_by_narrows]).
  rewrite (@if_set_spec (filter_college_name args)
             (filter_name "College Name") (name_matches "College Name")).
  2:{ intros s Hs T. unfold compiles in Hcn. rewrite Hs in Hcn.
      rewrite <- Hs in Hcn. destruct (Hcn T) as [search Hre].
      eapply filter_name_spec; [exact F1 | simpl; tauto | exact Hre]. }
  cbn [bind].
  set (d2 := kept_by _ d1).
  assert (F2 : filterable d2)
    by (eapply filterable_narrows; [exact F1 | apply kept_by_narrows]).
  rewrite (@if_set_spec (filter_branch_code args) filter_branch_code_eq
             branch_matches).
  2:{ intros s _ _. apply filter_branch_code_spec. exact F2. }
  cbn [bind].
  set (d3 := kept_by _ d2).
  assert (F3 : filterable d3)
    by (eapply filterable_narrows; [exact F2 | apply kept_by_narrows]).
  rewrite (@if_set_spec (filter_branch_name args)
             (filter_name "Branch Name") (name_matches "Branch Name")).
  2:{ intros s Hs T. unfold compiles in Hbn. rewrite Hs in Hbn.
      rewrite <- Hs in Hbn. destruct (Hbn T) as [search Hre].
      eapply filter_name_spec; [exact F3 | simpl; tauto | exact Hre]. }
  cbn [bind].
  set (d4 := kept_by _ d3).
  assert (F4 : filterable d4)
    by (eapply filterable_narrows; [exact F3 | apply kept_by_narrows]).
  rewrite (cutoff_loop_spec args communities (proj2 F4)).
  fold (kept_by (fun r => forallb
                   (fun c => within_bounds (min_cutoff args c)
                               (max_cutoff args c) (cutoff_of c r))
                   communities) d4).
  unfold d4, d3, d2, d1. rewrite !kept_by_twice.
  unfold kept_by. apply frame_rows_eq. apply filter_ext.
  intros r. unfold passes. rewrite !andb_assoc. reflexivity.
Qed.




(** X12.  Filtering twice by the same arguments is filtering once. *)
Theorem filters_are_idempotent df args df' :
  filterable df -> patterns_compile args ->
  apply_filters df args = Ok df' ->
  apply_filters df' args = Ok df'.
Proof.
  intros Hf Hp H.
  rewrite (apply_filters_kept Hf Hp) in H.
  apply Ok_inj in H. subst df'.
  rewrite apply_filters_kept;
    [| eapply filterable_narrows; [exact Hf | apply kept_by_narrows]
     | exact Hp].
  rewrite kept_by_twice. unfold kept_by. apply frame_rows_eq.
  apply filter_ext. intros r. apply andb_diag.
Qed.


End FilterMore.

Lemma sample_filterable : filterable sample_table.
Proof. apply canonical_filterable. vm_compute. reflexivity. Qed.

Lemma sample_patterns s :
  literal s = true -> @patterns_compile reference (named s sample_args).
Proof.
  intros L. split; cbn; [|exact I]. intros _.
  unfold literal_search. rewrite L. eauto.
Qed.


Lemma filters_are_idempotent_witness :
  let kept := kept_by (@passes reference (named "alpha" sample_args))
                sample_table in
  @apply_filters reference kept (named "alpha" sample_args) = Ok kept.
Proof.
  apply (@filters_are_idempotent reference sample_table).
  - exact sample_filterable.
  - apply sample_patterns. reflexivity.
  - vm_compute. reflexivity.
Defined.


(** ** Sorting as a whole *)

Section SortMore.

Context {P : Pandas}.

(** X14.  Whatever the arguments, sorting a table of canonical records loses
    no row, adds none and keeps the columns; and it prints nothing, except
    that a name which resolves to no column is reported (the table is then
    returned as it was). In particular the sort itself never fails on such a
    table. *)
Theorem sorting_keeps_the_rows df args :
  sorts P -> canonical df = true ->
  columns (fst (apply_sorting df args)) = columns df
  /\ Permutation (rows df) (rows (fst (apply_sorting df args)))
  /\ (snd (apply_sorting df args) = []
      \/ exists s,
           sort_by args = Some s /\ resolve_sort_column s = None
           /\ apply_sorting df args
              = (df, [PrintErr (SortColumnNotFound s (columns df))])).
Proof.
  intros HS Hcan.
  destruct (rows df) as [|r0 rs] eqn:Hrows.
  { rewrite (apply_sorting_no_rows _ args Hrows). cbn [fst snd].
    rewrite Hrows. auto. }
  rewrite <- Hrows.
  assert (Hne : rows df <> []) by (rewrite Hrows; discriminate).
  clear r0 rs Hrows.
  destruct (sort_by args) as [s|] eqn:Hs.
  2:{ unfold apply_sorting. rewrite Hs. cbn [truthy negb].
      rewrite orb_true_r. cbn [fst snd]. auto. }
  destruct s as [|a s'].
  { unfold apply_sorting. rewrite Hs. cbn [truthy negb].
    rewrite orb_true_r. cbn [fst snd]. auto. }
  set (s := String a s') in *.
  destruct (resolve_sort_column s) as [c|] eqn:Hres.
  - destruct (@apply_sorting_spec P df args s c HS Hcan Hne Hs
                ltac:(discriminate) Hres) as (part & E & Hp & _).
    rewrite E. cbn [fst snd]. split; [reflexivity|]. split; [|auto].
    apply take_perm. exact Hp.
  - assert (E0 : empty df = false).
    { destruct (canonical_facts _ Hcan) as (_ & _ & K).
      destruct (K "College Code") as [Hc _]; [simpl; tauto|].
      apply has_column_In in Hc. unfold empty.
      destruct (rows df); [contradiction|].
      destruct (columns df); [destruct Hc | reflexivity]. }
    assert (E : apply_sorting df args
                = (df, [PrintErr (SortColumnNotFound s (columns df))])).
    { unfold apply_sorting. rewrite Hs, E0. cbn [truthy negb orb].
      rewrite Hres. reflexivity. }
    rewrite E. cbn [fst snd]. split; [reflexivity|]. split; [auto|].
    right. exists s. auto.
Qed.

End SortMore.

Lemma sorting_keeps_the_rows_witness :
  Permutation (rows sample_table)
    (rows (fst (@apply_sorting reference sample_table
                  (sorted_by "OC Cutoff" desc sample_args)))).
Proof.
  destruct (@sorting_keeps_the_rows reference sample_table
              (sorted_by "OC Cutoff" desc sample_args))
    as (_ & Perm & _).
  - exact reference_sorts.
  - vm_compute. reflexivity.
  - exact Perm.
Defined.

(** ** The listings *)

Lemma cell_eqb_refl c : cell_eqb c c = true.
Proof.
  destruct c as [s|q|]; cbn [cell_eqb];
    [apply String.eqb_refl | apply Qeq_bool_iff; reflexivity | reflexivity].
Qed.

Lemma cell_eqb_sym a b : cell_eqb a b = cell_eqb b a.
Proof.
  destruct a as [s|p|], b as [t|q|]; cbn [cell_eqb]; try reflexivity.
  - apply String.eqb_sym.
  - destruct (Qeq_bool p q) eqn:E, (Qeq_bool q p) eqn:E'; try reflexivity.
    + apply Qeq_bool_iff in E. symmetry in E. apply Qeq_bool_iff in E.
      congruence.
    + apply Qeq_bool_iff in E'. symmetry in E'. apply Qeq_bool_iff in E'.
      congruence.
Qed.

Lemma row_eqb_refl r : row_eqb r r = true.
Proof.
  induction r as [|p r IH]; cbn [row_eqb]; [reflexivity|].
  rewrite cell_eqb_refl, IH. reflexivity.
Qed.

Lemma row_eqb_sym r1 : forall r2, row_eqb r1 r2 = row_eqb r2 r1.
Proof.
  induction r1 as [|a r1 IH]; intros [|b r2]; cbn [row_eqb]; try reflexivity.
  rewrite cell_eqb_sym, IH. reflexivity.
Qed.

Lemma distinct_rows_subseq rs : forall seen,
  subseq (distinct_rows seen rs) rs.
Proof.
  induction rs as [|r rs IH]; intros seen; cbn [distinct_rows];
    [constructor|].
  destruct (existsb (row_eqb r) seen).
  - apply subseq_skip. apply IH.
  - apply subseq_keep. apply IH.
Qed.

Lemma distinct_rows_covers rs : forall seen r,
  In r rs ->
  (exists s, In s seen /\ row_eqb r s = true)
  \/ exists r', In r' (distinct_rows seen rs) /\ row_eqb r r' = true.
Proof.
  induction rs as [|a rs IH]; intros seen r Hr; [destruct Hr|].
  cbn [distinct_rows]. destruct (existsb (row_eqb a) seen) eqn:E.
  - destruct Hr as [->|Hr]; [|apply IH; exact Hr].
    left. apply existsb_exists in E. exact E.
  - destruct Hr as [->|Hr].
    + right. exists r. split; [left; reflexivity | apply row_eqb_refl].
    + destruct (IH (a :: seen) r Hr) as [(s & [<-|Hs] & Es)|(r' & Hr' & Er)].
      * right. exists a. split; [left; reflexivity | exact Es].
      * left. eauto.
      * right. exists r'. split; [right; exact Hr' | exact Er].
Qed.

Lemma distinct_rows_fresh rs : forall seen r s,
  In r (distinct_rows seen rs) -> In s seen -> row_eqb r s = false.
Proof.
  induction rs as [|a rs IH]; intros seen r s Hr Hs; [destruct Hr|].
  cbn [distinct_rows] in Hr. destruct (existsb (row_eqb a) seen) eqn:E.
  - eapply IH; eassumption.
  - destruct Hr as [->|Hr].
    + destruct (row_eqb r s) eqn:X; [|reflexivity].
      assert (Y : existsb (row_eqb r) seen = true)
        by (apply existsb_exists; eauto).
      congruence.
    + eapply IH; [exact Hr | right; exact Hs].
Qed.

Lemma distinct_rows_once rs : forall seen,
  NoDup (distinct_rows seen rs)
  /\ forall a b, In a (distinct_rows seen rs) ->
                 In b (distinct_rows seen rs) ->
                 row_eqb a b = true -> a = b.
Proof.
  induction rs as [|r rs IH]; intros seen; cbn [distinct_rows].
  - split; [constructor | intros a b []].
  - destruct (existsb (row_eqb r) seen); [apply IH|].
    destruct (IH (r :: seen)) as [N U]. split.
    + constructor; [|exact N]. intros H.
      pose proof (@distinct_rows_fresh rs (r :: seen) r r H (or_introl eq_refl))
        as X.
      rewrite row_eqb_refl in X. discriminate X.
    + intros a b [<-|Ha] [<-|Hb] E; try reflexivity.
      * pose proof (@distinct_rows_fresh rs (r :: seen) b r Hb
                      (or_introl eq_refl)) as X.
        rewrite row_eqb_sym in X. congruence.
      * pose proof (@distinct_rows_fresh rs (r :: seen) a r Ha
                      (or_introl eq_refl)) as X.
        congruence.
      * apply U; assumption.
Qed.

Lemma fields_of_single (r : record) l :
  NoDup (map fst r) -> In l (map fst r) -> fields_of r l = [(l, field l r)].
Proof.
  unfold fields_of, field.
  induction r as [|[k c] r IH]; cbn [map fst filter lookup]; intros N H;
    [destruct H|].
  inversion N as [|x xs Hk N']; subst.
  destruct (String.eqb_spec k l) as [->|Hne].
  - f_equal. apply filter_none. intros [k' c'] Hp. cbn [fst].
    apply String.eqb_neq. intros ->. apply Hk.
    apply (in_map fst) in Hp. exact Hp.
  - destruct H as [H|H]; [contradiction|]. apply IH; assumption.
Qed.

Lemma field_pair_of code name r :
  code <> name -> field name (pair_of code name r) = field name r.
Proof.
  intros H. unfold pair_of, field at 1. cbn [lookup].
  apply String.eqb_neq in H. rewrite H, String.eqb_refl. reflexivity.
Qed.

Lemma identity_kind name :
  In name identity_columns -> column_kind name = str_or_null.
Proof.
  intros H. simpl in H.
  destruct H as [<-|[<-|[<-|[<-|[]]]]]; reflexivity.
Qed.

Lemma identity_mapped name :
  In name identity_columns -> In name mapping_values.
Proof.
  intros H. simpl in H.
  destruct H as [<-|[<-|[<-|[<-|[]]]]]; vm_compute; tauto.
Qed.

Section ListingMore.

Context {P : Pandas}.

Lemma select_pairs df code name :
  canonical df = true ->
  In code identity_columns -> In name identity_columns ->
  select [code; name] df
  = mkFrame [code; name] (map (pair_of code name) (rows df)).
Proof.
  intros Hcan Hc Hn. destruct (canonical_facts _ Hcan) as (ND & W & K).
  destruct (K code (@identity_mapped code Hc)) as [Hhc _].
  destruct (K name (@identity_mapped name Hn)) as [Hhn _].
  apply has_column_In in Hhc, Hhn.
  unfold select. f_equal.
  - apply flat_map_single; [exact ND|].
    intros l [<-|[<-|[]]]; assumption.
  - apply map_ext_in. intros r Hr. cbn [flat_map].
    unfold well_formed in W. rewrite Forall_forall in W.
    rewrite !fields_of_single; rewrite ?(W r Hr); try assumption.
    reflexivity.
Qed.

Lemma unique_pairs_spec df code name :
  sorts P -> canonical df = true ->
  In code identity_columns -> In name identity_columns -> code <> name ->
  exists named unnamed,
    unique_pairs df code name = Ok (mkFrame [code; name] (named ++ unnamed))
    /\ (forall r, In r (rows df) ->
          exists item, In item (named ++ unnamed)
                       /\ row_eqb (pair_of code name r) item = true)
    /\ (forall item, In item (named ++ unnamed) ->
          exists r, In r (rows df) /\ item = pair_of code name r)
    /\ NoDup (named ++ unnamed)
    /\ (forall a b, In a (named ++ unnamed) -> In b (named ++ unnamed) ->
                    row_eqb a b = true -> a = b)
    /\ StronglySorted
         (fun a b => cell_le (field name a) (field name b) = true) named
    /\ Forall (fun r => notna (field name r) = true) named
    /\ Forall (fun r => isna (field name r) = true) unnamed.
Proof.
  intros HS Hcan Hc Hn Hne.
  destruct (canonical_facts _ Hcan) as (ND & W & K).
  destruct (K code (@identity_mapped code Hc)) as [Hhc _].
  destruct (K name (@identity_mapped name Hn)) as [Hhn Hkind].
  rewrite (@identity_kind name Hn) in Hkind.
  unfold unique_pairs, getitems. cbn [forallb]. rewrite Hhc, Hhn.
  cbn [andb bind]. rewrite (@select_pairs df code name Hcan Hc Hn).
  set (pairs := map (pair_of code name) (rows df)).
  set (dd := drop_duplicates (mkFrame [code; name] pairs)).
  assert (Rows : rows dd = distinct_rows [] pairs) by reflexivity.
  assert (Sub : forall item, In item (rows dd) ->
                  exists r, In r (rows df) /\ item = pair_of code name r).
  { intros item Hi. rewrite Rows in Hi.
    apply (subseq_In (distinct_rows_subseq pairs [])) in Hi.
    unfold pairs in Hi. apply in_map_iff in Hi.
    destruct Hi as (r & E & Hr). eauto. }
  assert (Hcomp : comparable (filter notna (map (field name) (rows dd)))
                  = true).
  { unfold comparable. apply orb_true_iff. right.
    apply forallb_forall. intros c Hcell. apply filter_In in Hcell.
    destruct Hcell as [Hcell Hnn]. apply in_map_iff in Hcell.
    destruct Hcell as (item & <- & Hi).
    destruct (Sub item Hi) as (r & Hr & ->).
    rewrite (@field_pair_of code name r Hne) in *.
    rewrite forallb_forall in Hkind. specialize (Hkind r Hr).
    destruct (field name r); [reflexivity | discriminate Hkind |
                              discriminate Hnn]. }
  destruct (@sort_values_spec P dd name true true HS) as
      (part & Hsv & Hp & Hso & _); [| |exact Hcomp|].
  { unfold has_column, dd. cbn [columns drop_duplicates existsb].
    rewrite String.eqb_refl, orb_true_r. reflexivity. }
  { unfold dd. cbn [columns drop_duplicates].
    constructor; [intros [E|[]]; exact (Hne (eq_sym E))|].
    constructor; [intros []|constructor]. }
  set (items := map (field name) (rows dd)) in *.
  exists (map (row_at (rows dd)) part),
         (map (row_at (rows dd)) (null_positions items)).
  assert (Perm : Permutation (rows dd)
                   (map (row_at (rows dd)) part
                    ++ map (row_at (rows dd)) (null_positions items))).
  { rewrite <- map_app. apply (@take_perm dd name part true Hp). }
  destruct (distinct_rows_once pairs []) as [N U]. rewrite <- Rows in N, U.
  split; [rewrite Hsv; unfold take; rewrite map_app; reflexivity|].
  split.
  { intros r Hr.
    destruct (@distinct_rows_covers pairs [] (pair_of code name r))
      as [(s & [] & _)|(r' & Hr' & E)].
    - unfold pairs. apply in_map. exact Hr.
    - exists r'. split; [|exact E].
      apply (Permutation_in _ Perm). rewrite Rows. exact Hr'. }
  split.
  { intros item Hi. apply Sub.
    apply (Permutation_in _ (Permutation_sym Perm)). exact Hi. }
  split; [exact (Permutation_NoDup Perm N)|].
  split.
  { intros a b Ha Hb. apply U;
      apply (Permutation_in _ (Permutation_sym Perm)); assumption. }
  split.
  { apply SS_map. eapply SS_impl_in; [|exact Hso].
    intros i j _ _ H. unfold ordered_keys, items in H.
    rewrite !key_at_rows in H. exact H. }
  split; [apply valued_rows; exact Hp|].
  unfold items. rewrite null_rows. apply Forall_forall. intros r Hr.
  apply filter_In in Hr. tauto.
Qed.

(** X15.  The listings of [--list-colleges] and [--list-branches]. On a
    table of canonical records the listing shows, for every row, its pair of
    code and name; each pair is shown once; the pairs with a name come
    first, in the order of their names, and those without a name last. *)
Theorem listing_shows_each_pair_once df code column display :
  sorts P -> canonical df = true -> rows df <> [] ->
  (code = "College Code" /\ column = "College Name")
  \/ (code = "Branch Code" /\ column = "Branch Name") ->
  exists named unnamed,
    list_unique_values df column display
    = Ok [Print (Listing display (named ++ unnamed))]
    /\ (forall r, In r (rows df) ->
          exists item, In item (named ++ unnamed)
                       /\ row_eqb (pair_of code column r) item = true)
    /\ (forall item, In item (named ++ unnamed) ->
          exists r, In r (rows df) /\ item = pair_of code column r)
    /\ NoDup (named ++ unnamed)
    /\ (forall a b, In a (named ++ unnamed) -> In b (named ++ unnamed) ->
                    row_eqb a b = true -> a = b)
    /\ StronglySorted
         (fun a b => cell_le (field column a) (field column b) = true) named
    /\ Forall (fun r => notna (field column r) = true) named
    /\ Forall (fun r => isna (field column r) = true) unnamed.
Proof.
  intros HS Hcan Hrows Hwhich.
  destruct (canonical_facts _ Hcan) as (ND & W & K).
  assert (Hn : In column identity_columns)
    by (destruct Hwhich as [[_ ->]|[_ ->]]; simpl; tauto).
  destruct (K column (@identity_mapped column Hn)) as [Hhas _].
  assert (E0 : empty df = false).
  { pose proof Hhas as Hin. apply has_column_In in Hin. unfold empty.
    destruct (rows df); [contradiction|].
    destruct (columns df); [destruct Hin | reflexivity]. }
  unfold list_unique_values. rewrite E0, Hhas. cbn [negb orb].
  destruct Hwhich as [[-> ->]|[-> ->]].
  - destruct (@unique_pairs_spec df "College Code" "College Name" HS Hcan)
      as (named & unnamed & E & Props);
      [simpl; tauto | simpl; tauto | discriminate |].
    exists named, unnamed. rewrite E. cbn [bind].
    rewrite String.eqb_refl. cbn [bind rows]. split; [reflexivity|].
    exact Props.
  - destruct (@unique_pairs_spec df "College Code" "Branch Name" HS Hcan)
      as (named0 & unnamed0 & E1 & _);
      [simpl; tauto | simpl; tauto | discriminate |].
    destruct (@unique_pairs_spec df "Branch Code" "Branch Name" HS Hcan)
      as (named & unnamed & E & Props);
      [simpl; tauto | simpl; tauto | discriminate |].
    exists named, unnamed. rewrite E1. cbn [bind].
    replace (String.eqb "Branch Name" "College Name") with false
      by reflexivity.
    rewrite String.eqb_refl, E. cbn [bind rows]. split; [reflexivity|].
    exact Props.
Qed.

End ListingMore.

Lemma listing_shows_each_pair_once_witness :
  exists named unnamed,
    @list_unique_values reference sample_table "Branch Name" "Branches"
    = Ok [Print (Listing "Branches" (named ++ unnamed))]
    /\ NoDup (named ++ unnamed).
Proof.
  destruct (@listing_shows_each_pair_once reference sample_table
              "Branch Code" "Branch Name" "Branches")
    as (named & unnamed & E & _ & _ & N & _).
  - exact reference_sorts.
  - vm_compute. reflexivity.
  - discriminate.
  - right. split; reflexivity.
  - exists named, unnamed. split; assumption.
Defined.

(** ** Normalising twice *)

Lemma first_seen_covered m : forall seen,
  (forall x, In x m -> In x seen) -> first_seen seen m = [].
Proof.
  induction m as [|a m IH]; intros seen H; cbn [first_seen]; [reflexivity|].
  rewrite (proj2 (mem_In a seen)) by (apply H; left; reflexivity).
  apply IH. intros x Hx. apply H. right. exact Hx.
Qed.

Lemma first_seen_fresh l : forall seen m,
  NoDup l -> (forall x, In x l -> ~ In x seen) ->
  first_seen seen (l ++ m) = l ++ first_seen (rev l ++ seen) m.
Proof.
  induction l as [|a l IH]; intros seen m N H; [reflexivity|].
  inversion N as [|x xs Ha N']; subst. cbn [app first_seen rev].
  rewrite (proj2 (mem_false a seen)) by (apply H; left; reflexivity).
  rewrite IH; [rewrite <- app_assoc; reflexivity | exact N' |].
  intros x Hx [<-|Hs]; [exact (Ha Hx)|]. apply (H x); [right|]; assumption.
Qed.

Lemma all_keys_same (rs : list record) cols :
  rs <> [] -> Forall (fun r => map fst r = cols) rs -> NoDup cols ->
  all_keys rs = cols.
Proof.
  intros Hne W N. destruct rs as [|r rs]; [contradiction|].
  pose proof (Forall_inv W) as Hr. pose proof (Forall_inv_tail W) as W'.
  cbv beta in Hr. unfold all_keys. cbn [flat_map].
  rewrite first_seen_fresh; [|rewrite Hr; exact N|intros x _ []].
  rewrite first_seen_covered; [rewrite app_nil_r; exact Hr|].
  intros x Hx. apply in_or_app. left. apply (proj1 (in_rev _ _)).
  rewrite Hr.
  apply in_flat_map in Hx. destruct Hx as (r' & Hr' & Hx).
  rewrite Forall_forall in W'. rewrite <- (W' r' Hr'). exact Hx.
Qed.

Lemma keyed_self (r : record) :
  NoDup (map fst r) -> map (fun k => (k, field k r)) (map fst r) = r.
Proof.
  induction r as [|[k c] r IH]; cbn [map fst]; intros N; [reflexivity|].
  inversion N as [|x xs Hk N']; subst. f_equal.
  - unfold field. cbn [lookup]. rewrite String.eqb_refl. reflexivity.
  - rewrite <- (IH N') at 2. apply map_ext_in. intros k' Hk'.
    unfold field. cbn [lookup].
    destruct (String.eqb_spec k k') as [->|_]; [contradiction|reflexivity].
Qed.

Lemma map_fixed {A : Type} (f : A -> A) l :
  (forall a, In a l -> f a = a) -> map f l = l.
Proof.
  intros H. rewrite <- (map_id l) at 2. apply map_ext_in. exact H.
Qed.

Lemma frame_of_rows df :
  rows df <> [] -> well_formed df -> NoDup (columns df) ->
  frame_of_records (rows df) = df.
Proof.
  intros Hne W N. unfold frame_of_records.
  rewrite (all_keys_same Hne W N). rewrite <- (frame_eta df) at 3.
  f_equal. apply map_fixed. intros r Hr.
  unfold well_formed in W. rewrite Forall_forall in W.
  rewrite <- (W r Hr). apply keyed_self. rewrite (W r Hr). exact N.
Qed.

Lemma rename_fixed df :
  well_formed df -> (forall l, In l (columns df) -> rename_label l = l) ->
  rename df = df.
Proof.
  intros W H. unfold rename. rewrite <- (frame_eta df) at 3. f_equal.
  - apply map_fixed. exact H.
  - apply map_fixed. intros r Hr. apply map_fixed. intros [k c] Hp.
    cbn [fst snd]. f_equal. apply H.
    unfold well_formed in W. rewrite Forall_forall in W.
    rewrite <- (W r Hr). apply (in_map fst) in Hp. exact Hp.
Qed.

Lemma ensure_fixed names : forall df,
  (forall n, In n names -> has_column df n = true) ->
  fold_left ensure_column names df = df.
Proof.
  induction names as [|n ns IH]; intros df H; cbn [fold_left]; [reflexivity|].
  unfold ensure_column at 2. rewrite (H n (or_introl eq_refl)).
  apply IH. intros m Hm. apply H. right. exact Hm.
Qed.

Lemma mapM_fixed {A : Type} (f : A -> result A) l :
  (forall a, In a l -> f a = Ok a) -> mapM f l = Ok l.
Proof.
  induction l as [|a l IH]; intros H; cbn [mapM]; [reflexivity|].
  rewrite (H a (or_introl eq_refl)). cbn [bind].
  rewrite IH; [reflexivity|]. intros x Hx. apply H. right. exact Hx.
Qed.

Lemma assign_column_fixed f df name :
  NoDup (columns df) -> well_formed df ->
  Forall (fun r => f (field name r) = Ok (field name r)) (rows df) ->
  assign_column f df name = Ok df.
Proof.
  intros N W F. unfold assign_column.
  destruct (has_column df name); [|reflexivity].
  assert (C : (1 <? count_occ string_dec (columns df) name) = false).
  { apply Nat.ltb_ge. apply (proj1 (NoDup_count_occ string_dec _) N). }
  rewrite C. rewrite mapM_fixed; [cbn [bind]; rewrite frame_eta; reflexivity|].
  intros r Hr. apply mapM_fixed. intros [k c] Hp. cbn [fst snd].
  destruct (String.eqb_spec k name) as [->|_]; [|reflexivity].
  unfold well_formed in W. rewrite Forall_forall in W, F.
  pose proof (F r Hr) as Hc. unfold field in Hc.
  rewrite (@lookup_NoDup cell name c r) in Hc;
    [|rewrite (W r Hr); exact N|exact Hp].
  rewrite Hc. reflexivity.
Qed.

Lemma fold_assign_fixed f names df :
  NoDup (columns df) -> well_formed df ->
  (forall n, In n names ->
     Forall (fun r => f (field n r) = Ok (field n r)) (rows df)) ->
  foldM (assign_column f) names df = Ok df.
Proof.
  intros N W. induction names as [|n ns IH]; intros H; cbn [foldM];
    [reflexivity|].
  rewrite assign_column_fixed; [|exact N|exact W|apply H; left; reflexivity].
  cbn [bind]. apply IH. intros m Hm. apply H. right. exact Hm.
Qed.

Lemma flat_map_in_ext {A B : Type} (f g : A -> list B) l :
  (forall a, In a l -> f a = g a) -> flat_map f l = flat_map g l.
Proof.
  induction l as [|a l IH]; intros H; cbn [flat_map]; [reflexivity|].
  rewrite (H a (or_introl eq_refl)), IH; [reflexivity|].
  intros x Hx. apply H. right. exact Hx.
Qed.

Lemma flat_map_singletons {A B : Type} (g : A -> B) l :
  flat_map (fun a => [g a]) l = map g l.
Proof.
  induction l as [|a l IH]; cbn [flat_map map app]; [reflexivity|].
  rewrite IH. reflexivity.
Qed.

Lemma select_all df :
  well_formed df -> NoDup (columns df) -> select (columns df) df = df.
Proof.
  unfold well_formed, select. destruct df as [cols rws].
  cbn [columns rows]. intros W N. rewrite Forall_forall in W. f_equal.
  - apply flat_map_single; [exact N | auto].
  - apply map_fixed. intros r Hr. rewrite <- (W r Hr).
    rewrite (@flat_map_in_ext _ _ (fields_of r)
               (fun l => [(l, field l r)])).
    + rewrite flat_map_singletons. apply keyed_self.
      rewrite (W r Hr). exact N.
    + intros l Hl. apply fields_of_single; [|exact Hl].
      rewrite (W r Hr). exact N.
Qed.

Lemma NoDup_app_disjoint {A : Type} (a b : list A) :
  NoDup (a ++ b) -> forall x, In x a -> In x b -> False.
Proof.
  induction a as [|y a IH]; cbn [app]; intros N x Ha Hb; [destruct Ha|].
  inversion N as [|z zs Hy N']; subst. destruct Ha as [->|Ha].
  - apply Hy. apply in_or_app. right. exact Hb.
  - exact (IH N' x Ha Hb).
Qed.

Lemma reordered_fixed df extras :
  well_formed df -> NoDup (columns df) ->
  columns df = mapping_values ++ extras ->
  reordered df = df.
Proof.
  intros W N C. unfold reordered.
  assert (Ord : filter (has_column df) mapping_values = mapping_values).
  { apply filter_id. intros x Hx. apply has_column_In. rewrite C.
    apply in_or_app. left. exact Hx. }
  rewrite Ord.
  assert (Ext : filter (fun col => negb (mem col mapping_values))
                       (columns df) = extras).
  { rewrite C, filter_app.
    rewrite filter_none, filter_id; [reflexivity| |].
    - intros x Hx. apply negb_true_iff, mem_false. intros Hm.
      rewrite C in N. exact (@NoDup_app_disjoint _ _ _ N x Hm Hx).
    - intros x Hx. apply negb_false_iff, mem_In. exact Hx. }
  rewrite Ext, <- C. apply select_all; assumption.
Qed.

Section Idempotence.

Context {P : Pandas}.

(** X16.  Normalising the rows of a normalised table gives the same table:
    when the raw field names stay distinct under the renaming,
    [process_data] applied to the records of its own result returns that
    result. *)
Theorem normalization_is_idempotent raw df :
  raw <> [] -> distinct (renamed_keys raw) = true ->
  process_data raw = Ok df ->
  process_data (rows df) = Ok df.
Proof.
  intros Hne D H.
  pose proof (normalized_well_formed _ H) as W.
  pose proof (normalized_columns Hne H D) as C.
  destruct (normalized_kinds H Hne) as (Has & Cut & Seat).
  assert (N : NoDup (columns df)).
  { rewrite C. apply NoDup_app; [exact NoDup_mapping_values | |].
    - unfold extra_fields. apply NoDup_filter. apply NoDup_all_keys.
    - intros x Hx Hf. unfold extra_fields in Hf. apply filter_In in Hf.
      destruct Hf as [_ Hf]. apply andb_prop in Hf. destruct Hf as [_ Hf].
      apply andb_prop in Hf. destruct Hf as [_ Hf].
      apply negb_true_iff, mem_false in Hf. exact (Hf Hx). }
  assert (Rows : rows df <> []).
  { pose proof (normalized_rows _ H) as F. destruct raw; [contradiction|].
    inversion F; subst. discriminate. }
  assert (Prep : prepared (rows df) = df).
  { unfold prepared. rewrite (frame_of_rows Rows W N).
    assert (Id : has_column df "_id" = false).
    { destruct (has_column df "_id") eqn:E; [|reflexivity]. exfalso.
      apply has_column_In in E. rewrite C in E. apply in_app_or in E.
      destruct E as [E|E].
      - revert E. apply mem_false. vm_compute. reflexivity.
      - unfold extra_fields in E. apply filter_In in E.
        destruct E as [_ E]. discriminate E. }
    rewrite Id. rewrite rename_fixed; [|exact W|].
    - apply ensure_fixed. intros n Hn. apply has_column_In. apply Has.
      exact Hn.
    - intros l Hl. rewrite C in Hl. apply in_app_or in Hl.
      destruct (rename_label_cases l) as [[Hk _]|[_ E]]; [|exact E].
      exfalso. destruct Hl as [Hl|Hl].
      + assert (A : forallb (fun v => negb (mem v mapping_keys))
                            mapping_values = true)
          by (vm_compute; reflexivity).
        rewrite forallb_forall in A. specialize (A l Hl).
        apply negb_true_iff, mem_false in A. exact (A Hk).
      + unfold extra_fields in Hl. apply filter_In in Hl.
        destruct Hl as [_ Hl]. apply andb_prop in Hl.
        destruct Hl as [_ Hl]. apply andb_prop in Hl.
        destruct Hl as [Hl _]. apply negb_true_iff, mem_false in Hl.
        exact (Hl Hk). }
  destruct (rows df) as [|r rs] eqn:E; [contradiction|].
  rewrite process_data_cons, Prep.
  rewrite fold_assign_fixed; [|exact N|exact W|].
  2:{ intros n Hn. eapply Forall_impl; [|rewrite E; exact (Cut n Hn)].
      intros row Hk. cbv beta in *.
      destruct (field n row); [discriminate Hk|reflexivity|reflexivity]. }
  cbn [bind]. rewrite fold_assign_fixed; [|exact N|exact W|].
  2:{ intros n Hn. eapply Forall_impl; [|rewrite E; exact (Seat n Hn)].
      intros row Hk. cbv beta in *.
      destruct (field n row) as [s|q|]; [discriminate Hk| |reflexivity].
      cbn [to_numeric astype_Int64]. cbn [int_or_null] in Hk.
      rewrite Hk. reflexivity. }
  cbn [bind]. rewrite (reordered_fixed W N C). reflexivity.
Qed.

End Idempotence.

Lemma normalization_is_idempotent_witness :
  @process_data reference (rows sample_table) = Ok sample_table.
Proof.
  apply (@normalization_is_idempotent reference sample_raw).
  - discriminate.
  - vm_compute. reflexivity.
  - vm_compute. reflexivity.
Defined.

(** ** The identifier of a record *)

Lemma first_seen_filter (g : string -> bool) l : forall seen seen',
  (forall x, g x = true -> (In x seen <-> In x seen')) ->
  first_seen seen (filter g l) = filter g (first_seen seen' l).
Proof.
  induction l as [|x l IH]; intros seen seen' H; cbn [filter first_seen];
    [reflexivity|].
  destruct (g x) eqn:G.
  - cbn [first_seen].
    assert (M : mem x seen = mem x seen').
    { destruct (mem x seen) eqn:A, (mem x seen') eqn:B; try reflexivity.
      - apply mem_In in A. apply (H x G) in A. apply mem_In in A. congruence.
      - apply mem_In in B. apply (H x G) in B. apply mem_In in B. congruence. }
    rewrite M. destruct (mem x seen').
    + apply IH. exact H.
    + cbn [filter]. rewrite G. f_equal. apply IH.
      intros y Gy. specialize (H y Gy). simpl. tauto.
  - destruct (mem x seen').
    + apply IH. exact H.
    + cbn [filter]. rewrite G. apply IH.
      intros y Gy. specialize (H y Gy). simpl. split.
      * intros Hy. right. apply H. exact Hy.
      * intros [->|Hy]; [congruence | apply H; exact Hy].
Qed.

Lemma filter_keyed (g : string -> bool) (h : string -> cell) keys :
  filter (fun p => g (fst p)) (map (fun k => (k, h k)) keys)
  = map (fun k => (k, h k)) (filter g keys).
Proof.
  induction keys as [|k keys IH]; cbn [map filter fst]; [reflexivity|].
  destruct (g k); cbn [map]; rewrite IH; reflexivity.
Qed.

Lemma drop_absent name df :
  well_formed df -> has_column df name = false -> drop_column name df = df.
Proof.
  unfold well_formed, drop_column, has_column. destruct df as [cols rws].
  cbn [columns rows]. intros W Hn. rewrite Forall_forall in W.
  assert (A : forall l, In l cols -> negb (String.eqb l name) = true).
  { intros l Hl. apply negb_true_iff, String.eqb_neq. intros ->.
    assert (X : existsb (String.eqb name) cols = true)
      by (apply existsb_exists; exists name; split;
          [exact Hl | apply String.eqb_refl]).
    congruence. }
  f_equal.
  - apply filter_id. exact A.
  - apply map_fixed. intros r Hr. apply filter_id. intros p Hp.
    apply A. rewrite <- (W r Hr). apply (in_map fst) in Hp. exact Hp.
Qed.

Lemma all_keys_without_id raw :
  all_keys (map without_id raw)
  = filter (fun k => negb (String.eqb k "_id")) (all_keys raw).
Proof.
  unfold all_keys.
  rewrite <- (@first_seen_filter _ _ [] []) by tauto. f_equal.
  induction raw as [|r raw IH]; cbn [map flat_map]; [reflexivity|].
  rewrite filter_app, IH. f_equal. unfold without_id.
  apply (map_fst_filter (fun k => negb (String.eqb k "_id"))).
Qed.

Lemma prepared_without_id raw :
  prepared (map without_id raw) = prepared raw.
Proof.
  unfold prepared.
  assert (E : frame_of_records (map without_id raw)
              = drop_column "_id" (frame_of_records raw)).
  { unfold frame_of_records, drop_column. cbn [columns rows].
    rewrite all_keys_without_id. f_equal. rewrite !map_map.
    apply map_ext. intros r.
    rewrite (filter_keyed (fun k => negb (String.eqb k "_id"))
               (fun k => field k r)).
    apply map_ext_in. intros k Hk. apply filter_In in Hk.
    destruct Hk as [_ Hk]. apply negb_true_iff, String.eqb_neq in Hk.
    f_equal. unfold field, without_id. rewrite lookup_drop by exact Hk.
    reflexivity. }
  assert (No : has_column (frame_of_records (map without_id raw)) "_id"
               = false).
  { destruct (has_column _ "_id") eqn:X; [|reflexivity]. exfalso.
    apply has_column_In in X. unfold frame_of_records in X.
    cbn [columns] in X. rewrite all_keys_without_id in X.
    apply filter_In in X. destruct X as [_ X]. discriminate X. }
  rewrite No, E.
  destruct (has_column (frame_of_records raw) "_id") eqn:X; [reflexivity|].
  rewrite drop_absent; [reflexivity | apply well_formed_frame | exact X].
Qed.

Section Identifier.

Context {P : Pandas}.

(** X17.  The ["_id"] field of the records has no influence on the
    normalised table: taking it away from every record changes nothing. *)
Theorem identifier_is_ignored raw :
  process_data (map without_id raw) = process_data raw.
Proof.
  destruct raw as [|r raw]; [reflexivity|].
  change (map without_id (r :: raw))
    with (without_id r :: map without_id raw).
  rewrite !process_data_cons.
  change (without_id r :: map without_id raw)
    with (map without_id (r :: raw)).
  rewrite prepared_without_id. reflexivity.
Qed.

End Identifier.

(** ** The command line and the configuration *)

Section CommandLine.

Context {P : Pandas}.

(** X18.  A list action ignores every other option: two command lines with
    the same year and the same list flags, one of which is set, give the
    same run, whatever their filters, sort options, format and output file. *)
Theorem list_actions_ignore_other_flags env argv argv' :
  year argv = year argv' ->
  list_sortable_columns argv = list_sortable_columns argv' ->
  list_colleges argv = list_colleges argv' ->
  list_branches argv = list_branches argv' ->
  list_sortable_columns argv || list_colleges argv || list_branches argv
  = true ->
  main env argv = main env argv'.
Proof.
  intros Hy Hs Hc Hb Hset. unfold main, parse_args. rewrite <- Hy.
  destruct (existsb _ _); [|reflexivity]. f_equal.
  unfold run. rewrite <- Hs, <- Hc, <- Hb, <- Hy.
  destruct (list_sortable_columns argv); [reflexivity|]. cbv zeta.
  destruct (list_colleges argv) eqn:Lc; [reflexivity|].
  destruct (list_branches argv) eqn:Lb; [reflexivity | discriminate Hset].
Qed.

End CommandLine.

Lemma list_actions_ignore_other_flags_witness :
  @main reference sample_env
    (mkArgs 2024%Z None excel true false false
       None None None None no_bound no_bound None asc)
  = @main reference sample_env
      (mkArgs 2024%Z (Some "out.csv") csv true false false
         (Some "1") (Some "alpha") None None no_bound no_bound
         (Some "OC Cutoff") desc).
Proof.
  apply list_actions_ignore_other_flags; reflexivity.
Defined.

(** X19.  [API_CODE_TO_YEAR] is the inverse of [YEAR_TO_API_CODE]: a code is
    bound to a year in the one exactly when the year is bound to the code in
    the other. *)
Theorem year_table_round_trip y code :
  year_code y YEAR_TO_API_CODE = Some code
  <-> lookup code API_CODE_TO_YEAR = Some y.
Proof.
  change API_CODE_TO_YEAR
    with [("1C", 2024%Z); ("2C", 2023%Z); ("3C", 2022%Z);
          ("4C", 2021%Z); ("5C", 2020%Z)].
  unfold YEAR_TO_API_CODE. cbn [year_code lookup]. split.
  - repeat match goal with
           | |- context [Z.eqb ?a y] => destruct (Z.eqb_spec a y)
           end; intros H; try discriminate H;
      injection H as <-; subst y; reflexivity.
  - repeat match goal with
           | |- context [String.eqb ?a code] =>
               destruct (String.eqb_spec a code)
           end; intros H; try discriminate H;
      injection H as <-; subst code; reflexivity.
Qed.
